(** * grpclib.server: the server side of the RPC runtime

    A shallow embedding of [grpclib/server.py]: the per-RPC [Stream], the
    dispatch coroutine [request_handler], the per-connection [Handler] and
    the listening [Server], followed by the properties of the
    specification that concern them.

    Python objects are records, their methods are state transformers that
    return either a value or the exception raised, and the state reached
    when an exception is raised is kept: an [assert] that fails after a
    frame has gone out leaves that frame on the wire. *)

From stdpp Require Import base option list strings gmap fin_maps fin_sets.

Open Scope string_scope.
Open Scope list_scope.

(** ** Exceptions *)

(** The exception classes this module raises or lets through.  All of them
    derive from [Exception] except those gathered under [BaseException]
    ([KeyboardInterrupt], [SystemExit], [GeneratorExit]), which an
    [except Exception] clause does not catch. *)
Inductive exn : Type :=
| AssertionError (arg : option string)
| KeyError (key : string)
| RuntimeError (msg : string)
| OSError (msg : string)
| StopAsyncIteration
| ApplicationError (name : string)
| BaseException (name : string).

Definition is_Exception (e : exn) : bool :=
  match e with
  | BaseException _ => false
  | _ => true
  end.

Definition is_AssertionError (e : exn) : bool :=
  match e with
  | AssertionError _ => true
  | _ => false
  end.

(** ** Computations: state and exceptions *)

(** [M S A]: a method acting on a state [S], returning an [A] or raising. *)
Definition M (S A : Type) : Type := S → (exn + A) * S.

#[global] Instance M_ret {S} : MRet (M S) := λ A a s, (inr a, s).
#[global] Instance M_bind {S} : MBind (M S) := λ A B f m s,
  match m s with
  | (inr a, s') => f a s'
  | (inl e, s') => (inl e, s')
  end.

Definition get {S} : M S S := λ s, (inr s, s).
Definition modify {S} (f : S → S) : M S unit := λ s, (inr (), f s).
Definition raise {S A} (e : exn) : M S A := λ s, (inl e, s).

(** [assert cond, arg] *)
Definition py_assert {S} (cond : bool) (arg : option string) : M S unit :=
  if cond then mret () else raise (AssertionError arg).

(** The outcome and the final state of a computation. *)
Definition outcome {S A} (r : (exn + A) * S) : exn + A := r.1.
Definition final {S A} (r : (exn + A) * S) : S := r.2.

Abbreviation header_list := (list (string * string)).

Section Grpc.

(** The message classes and the codec live in [grpclib.stream] and in the
    generated protobuf modules; they are parameters here.  [isinstance] is
    the Python builtin, [CONTENT_TYPE] and [CONTENT_TYPES] are the constants
    imported from [grpclib.stream]. *)
Context {message pytype : Type}.
Variable isinstance : message → pytype → bool.
Variable CONTENT_TYPE : string.
Variable CONTENT_TYPES : gset string.

(** ** The transport stream *)

(** Modelled from the spec: the stream object of [grpclib.protocol] and the
    codec of [grpclib.stream], neither of which is in [server.py].  The
    specification gives the transport the operations [sendHeaders(headerList,
    endStream)], a message-frame send, [reset()] and a receive primitive,
    and names no failure of them: a call is recorded and returns.  [frame]
    is one such call as seen on the wire. *)
Inductive frame : Type :=
| Headers (headers : header_list) (end_stream : bool)
| Data (msg : message)
| RstStream.

(** Modelled from the spec: the state of a transport stream, [wire] the
    frames sent in call order, [inbox] the request messages not yet
    received. *)
Record h2stream : Type := H2Stream {
  wire : list frame;
  inbox : list message
}.

Definition emit (f : frame) (t : h2stream) : h2stream :=
  {| wire := wire t ++ [f]; inbox := inbox t |}.

(** Modelled from the spec: [stream.send_headers(headers, end_stream=...)]
    of the missing protocol module. *)
Definition send_headers (headers : header_list) (end_stream : bool)
  : M h2stream unit :=
  modify (emit (Headers headers end_stream)).

(** Modelled from the spec: [grpclib.stream.send(stream, message)], which
    encodes the message and emits it as one message frame. *)
Definition codec_send (msg : message) : M h2stream unit :=
  modify (emit (Data msg)).

(** Modelled from the spec: [grpclib.stream.recv(stream, recv_type)], the
    next inbound message decoded, or [None] at the end of the stream. *)
Definition codec_recv (recv_type : pytype) : M h2stream (option message) :=
  λ t, match inbox t with
       | [] => (inr None, t)
       | m :: rest => (inr (Some m), {| wire := wire t; inbox := rest |})
       end.

(** Modelled from the spec: [stream.reset()] of the missing protocol
    module. *)
Definition h2_reset : M h2stream unit := modify (emit RstStream).

(** A trailer frame: headers carrying the end-of-stream marker. *)
Definition is_trailer (f : frame) : bool :=
  match f with
  | Headers _ true => true
  | _ => false
  end.

(** An initial header frame: headers that leave the stream open. *)
Definition is_initial (f : frame) : bool :=
  match f with
  | Headers _ false => true
  | _ => false
  end.

Definition is_data (f : frame) : bool :=
  match f with
  | Data _ => true
  | _ => false
  end.

Definition trailers_sent (w : list frame) : nat :=
  length (List.filter is_trailer w).
Definition initials_sent (w : list frame) : nat :=
  length (List.filter is_initial w).

(** ** class Stream *)

Record Stream : Type := mkStream {
  _stream : h2stream;
  _recv_type : pytype;
  _send_type : pytype;
  _headers : header_list;
  _trailers : header_list;
  _headers_sent : bool;
  _ended : bool
}.

(** [Stream(stream, recv_type, send_type, headers, trailers)]: the two
    flags start from the class attributes, both [False]. *)
Definition Stream_init (stream : h2stream) (recv_type send_type : pytype)
    (headers trailers : header_list) : Stream :=
  {| _stream := stream; _recv_type := recv_type; _send_type := send_type;
     _headers := headers; _trailers := trailers;
     _headers_sent := false; _ended := false |}.

Definition set_stream (t : h2stream) (self : Stream) : Stream :=
  {| _stream := t; _recv_type := _recv_type self;
     _send_type := _send_type self; _headers := _headers self;
     _trailers := _trailers self; _headers_sent := _headers_sent self;
     _ended := _ended self |}.

Definition set_headers_sent (b : bool) (self : Stream) : Stream :=
  {| _stream := _stream self; _recv_type := _recv_type self;
     _send_type := _send_type self; _headers := _headers self;
     _trailers := _trailers self; _headers_sent := b;
     _ended := _ended self |}.

(** A call on [self._stream]. *)
Definition on_stream {A} (c : M h2stream A) : M Stream A :=
  λ self, let '(r, t) := c (_stream self) in (r, set_stream t self).

(** [Stream.end(trailers=None)] *)
Definition Stream_end (trailers : option header_list) : M Stream unit :=
  self ← get;
  let trailers := default (_trailers self) trailers in
  py_assert (negb (_ended self)) None;;
  on_stream (send_headers trailers true).

(** [Stream.send(message, end=False)] *)
Definition Stream_send (msg : message) (end_ : bool) : M Stream unit :=
  self ← get;
  (if negb (_headers_sent self)
   then on_stream (send_headers (_headers self) false);;
        modify (set_headers_sent true)
   else mret ());;
  self ← get;
  py_assert (isinstance msg (_send_type self)) None;;
  on_stream (codec_send msg);;
  if end_ then Stream_end None else mret ().

(** [Stream.maybe_end(trailers=None)] *)
Definition Stream_maybe_end (trailers : option header_list) : M Stream unit :=
  self ← get;
  if negb (_ended self) then Stream_end trailers else mret ().

(** [Stream.reset()] *)
Definition Stream_reset : M Stream unit := on_stream h2_reset.

(** [Stream.recv()] *)
Definition Stream_recv : M Stream (option message) :=
  self ← get;
  on_stream (codec_recv (_recv_type self)).

(** [Stream.__anext__()] *)
Definition Stream_anext : M Stream (option message) :=
  msg ← Stream_recv;
  match msg with
  | None => raise StopAsyncIteration
  | Some m => mret (Some m)
  end.

(** What is on the wire of a stream. *)
Definition sent (self : Stream) : list frame := wire (_stream self).

(** The fields no method of the stream assigns. *)
Definition same_settings (self self' : Stream) : Prop :=
  _ended self' = _ended self ∧ _headers self' = _headers self ∧
  _trailers self' = _trailers self ∧ _send_type self' = _send_type self ∧
  _recv_type self' = _recv_type self.

(** The frames a call of [send] puts on the wire, from the state it is
    called in. *)
Definition frames_of_send (self : Stream) (msg : message) (end_ : bool)
  : list frame :=
  (if _headers_sent self then [] else [Headers (_headers self) false]) ++
  (if isinstance msg (_send_type self)
   then Data msg ::
        (if end_ && negb (_ended self)
         then [Headers (_trailers self) true] else [])
   else []).

(** ** Method functions

    A registered method function is an [async def] taking the [Stream].
    All it can do to the stream goes through the stream's methods, so a
    run of it is a tree: it returns, raises, or awaits one method of the
    stream and goes on from what that call returned or raised (a method
    function may catch the exception of a call and continue). *)
Inductive call : Type :=
| CallSend (msg : message) (end_ : bool)
| CallEnd (trailers : option header_list)
| CallMaybeEnd (trailers : option header_list)
| CallReset
| CallRecv
| CallAnext.

Inductive coroutine : Type :=
| Return
| Raise (e : exn)
| Await (c : call) (k : exn + option message → coroutine).

(** The value of a method that returns nothing is Python's [None]. *)
Definition returns_None (c : M Stream unit) : M Stream (option message) :=
  c;; mret None.

Definition perform (c : call) : M Stream (option message) :=
  match c with
  | CallSend msg end_ => returns_None (Stream_send msg end_)
  | CallEnd trailers => returns_None (Stream_end trailers)
  | CallMaybeEnd trailers => returns_None (Stream_maybe_end trailers)
  | CallReset => returns_None Stream_reset
  | CallRecv => Stream_recv
  | CallAnext => Stream_anext
  end.

(** [await func(stream)] *)
Fixpoint run (p : coroutine) : M Stream unit :=
  λ self,
    match p with
    | Return => (inr (), self)
    | Raise e => (inl e, self)
    | Await c k => let '(r, self') := perform c self in run (k r) self'
    end.

(** The calls that end the stream, and the method functions that make
    none of them. *)
Definition ends_stream (c : call) : bool :=
  match c with
  | CallSend _ true | CallEnd _ | CallMaybeEnd _ => true
  | _ => false
  end.

Fixpoint leaves_open (p : coroutine) : Prop :=
  match p with
  | Return | Raise _ => True
  | Await c k => ends_stream c = false ∧ ∀ r, leaves_open (k r)
  end.

(** The method descriptor stored in the mapping. *)
Record Method : Type := mkMethod {
  func : coroutine;
  request_type : pytype;
  reply_type : pytype
}.

(** ** request_handler *)

(** What [request_handler] acts on besides its arguments: the transport
    stream it is given and the module's logger. *)
Record Runtime : Type := mkRuntime {
  h2 : h2stream;
  log : list (string * exn)
}.

(** [dict(headers)]: a later pair overwrites an earlier one. *)
Definition dict (headers : header_list) : gmap string string :=
  fold_left (λ d kv, <[kv.1 := kv.2]> d) headers ∅.

(** [d[key]] *)
Definition getitem {S} (d : gmap string string) (key : string) : M S string :=
  match d !! key with
  | Some v => mret v
  | None => raise (KeyError key)
  end.

Definition initial_headers : header_list :=
  [(":status", "200"); ("content-type", CONTENT_TYPE)].
Definition success_trailers : header_list := [("grpc-status", "0")].
Definition failure_trailers : header_list := [("grpc-status", "2")].

(** The stream [request_handler] builds for the method it has resolved. *)
Definition stream_for (method : Method) (rt : Runtime) : Stream :=
  Stream_init (h2 rt) (request_type method) (reply_type method)
    initial_headers success_trailers.

(** The end of [request_handler]: the stream is built and the method
    function awaited inside [try ... except Exception ... else]. *)
Definition serve (method : Method) : M Runtime unit :=
  λ rt,
    let stream := stream_for method rt in
    match run (func method) stream with
    | (inl e, stream) =>
        if is_Exception e then
          let '(r, stream) := Stream_maybe_end (Some failure_trailers) stream in
          (r, {| h2 := _stream stream;
                 log := log rt ++ [("Server error", e)] |})
        else (inl e, {| h2 := _stream stream; log := log rt |})
    | (inr _, stream) =>
        let '(r, stream) := Stream_maybe_end None stream in
        (r, {| h2 := _stream stream; log := log rt |})
    end.

Definition request_handler (mapping : gmap string Method)
    (headers : header_list) : M Runtime unit :=
  let headers := dict headers in
  h2_method ← getitem headers ":method";
  h2_path ← getitem headers ":path";
  h2_content_type ← getitem headers "content-type";
  let method := mapping !! h2_path in
  py_assert (bool_decide (h2_method = "POST")) (Some h2_method);;
  match method with
  | None => raise (AssertionError (Some h2_path))
  | Some method =>
      py_assert (bool_decide (h2_content_type ∈ CONTENT_TYPES))
        (Some h2_content_type);;
      serve method
  end.

(** ** The event loop

    Tasks and listening sockets belong to asyncio.  The loop keeps what
    this module asks of it: the coroutines handed to [create_task], the
    tasks on which [cancel()] was called, the tasks passed to [wait], and
    the listening servers with the address each one holds.  Tasks,
    transport streams, servers and handlers are objects compared by
    identity; a [positive] stands for each. *)
Record request : Type := mkRequest {
  req_mapping : gmap string Method;
  req_stream : positive;
  req_headers : header_list
}.

Record Loop : Type := mkLoop {
  next_id : positive;
  scheduled : gmap positive request;
  cancel_requested : gset positive;
  joined : gset positive;
  listeners : gmap positive (string * bool);
  listeners_awaited : gset positive
}.

(** [loop.create_task(request_handler(mapping, stream, headers))] *)
Definition create_task (r : request) : M Loop positive :=
  λ l, (inr (next_id l),
        {| next_id := Pos.succ (next_id l);
           scheduled := <[next_id l := r]> (scheduled l);
           cancel_requested := cancel_requested l;
           joined := joined l;
           listeners := listeners l;
           listeners_awaited := listeners_awaited l |}).

(** [task.cancel()] *)
Definition Task_cancel (task : positive) (l : Loop) : Loop :=
  {| next_id := next_id l;
     scheduled := scheduled l;
     cancel_requested := {[task]} ∪ cancel_requested l;
     joined := joined l;
     listeners := listeners l;
     listeners_awaited := listeners_awaited l |}.

(** [await wait(tasks, loop=loop)] *)
Definition wait (tasks : gset positive) (l : Loop) : Loop :=
  {| next_id := next_id l;
     scheduled := scheduled l;
     cancel_requested := cancel_requested l;
     joined := tasks ∪ joined l;
     listeners := listeners l;
     listeners_awaited := listeners_awaited l |}.

Definition address_in_use (addr : string) (l : Loop) : bool :=
  bool_decide ((addr, true) ∈ (map_to_list (listeners l)).*2).

(** [await loop.create_server(protocol_factory, ...)]: binding fails with
    [OSError] when the address is taken. *)
Definition create_server (addr : string) : M Loop positive :=
  λ l, if address_in_use addr l
       then (inl (OSError "address already in use"), l)
       else (inr (next_id l),
             {| next_id := Pos.succ (next_id l);
                scheduled := scheduled l;
                cancel_requested := cancel_requested l;
                joined := joined l;
                listeners := <[next_id l := (addr, true)]> (listeners l);
                listeners_awaited := listeners_awaited l |}).

(** [tcp_server.close()] *)
Definition tcp_close (srv : positive) (l : Loop) : Loop :=
  {| next_id := next_id l;
     scheduled := scheduled l;
     cancel_requested := cancel_requested l;
     joined := joined l;
     listeners := alter (λ a, (a.1, false)) srv (listeners l);
     listeners_awaited := listeners_awaited l |}.

(** [await tcp_server.wait_closed()] *)
Definition tcp_wait_closed (srv : positive) (l : Loop) : Loop :=
  {| next_id := next_id l;
     scheduled := scheduled l;
     cancel_requested := cancel_requested l;
     joined := joined l;
     listeners := listeners l;
     listeners_awaited := {[srv]} ∪ listeners_awaited l |}.

(** ** class Handler *)

Record Handler : Type := mkHandler {
  mapping : gmap string Method;
  tasks : gmap positive positive;
  _cancelled : gset positive
}.

(** [Handler(mapping, loop=loop)] *)
Definition Handler_init (mapping : gmap string Method) : Handler :=
  {| mapping := mapping; tasks := ∅; _cancelled := ∅ |}.

(** [d.values()] *)
Definition values (d : gmap positive positive) : list positive :=
  (map_to_list d).*2.

(** [Handler.accept(stream, headers)] *)
Definition Handler_accept (stream : positive) (headers : header_list)
  : M (Handler * Loop) unit :=
  λ '(self, l),
    let '(r, l') := create_task (mkRequest (mapping self) stream headers) l in
    match r with
    | inr task =>
        (inr (), ({| mapping := mapping self;
                     tasks := <[stream := task]> (tasks self);
                     _cancelled := _cancelled self |}, l'))
    | inl e => (inl e, (self, l'))
    end.

(** [Handler.cancel(stream)]; the [KeyError] of [pop] carries the stream
    object, written ["stream"] here. *)
Definition Handler_cancel (stream : positive) : M (Handler * Loop) unit :=
  λ '(self, l),
    match tasks self !! stream with
    | None => (inl (KeyError "stream"), (self, l))
    | Some task =>
        (inr (), ({| mapping := mapping self;
                     tasks := delete stream (tasks self);
                     _cancelled := {[task]} ∪ _cancelled self |},
                  Task_cancel task l))
    end.

(** [Handler.close()] *)
Definition Handler_close : M (Handler * Loop) unit :=
  λ '(self, l),
    let l' := fold_left (λ l task, Task_cancel task l) (values (tasks self)) l in
    (inr (), ({| mapping := mapping self;
                 tasks := tasks self;
                 _cancelled := _cancelled self ∪ list_to_set (values (tasks self)) |},
              l')).

(** [Handler.wait_closed()] *)
Definition Handler_wait_closed : M (Handler * Loop) unit :=
  λ '(self, l),
    if bool_decide (_cancelled self ≠ ∅)
    then (inr (), (self, wait (_cancelled self) l))
    else (inr (), (self, l)).

(** ** class Server *)

Record Server : Type := mkServer {
  _mapping : gmap string Method;
  _tcp_server : option positive;
  _handlers : gset positive
}.

(** The [Handler] objects live in a heap; the server's set holds
    references to them, and so does each connection's protocol. *)
Record World : Type := mkWorld {
  loop : Loop;
  heap : gmap positive Handler
}.

(** [mapping.update(other)] *)
Definition update (mapping other : gmap string Method) : gmap string Method :=
  other ∪ mapping.

(** [Server(handlers, loop=loop)], each handler group given by the
    dictionary its [__mapping__()] returns. *)
Definition Server_init (handlers : list (gmap string Method)) : Server :=
  {| _mapping := fold_left update handlers ∅;
     _tcp_server := None;
     _handlers := ∅ |}.

(** [Server._protocol_factory()]: returns the protocol wrapped around the
    new handler, identified with the handler's reference. *)
Definition Server_protocol_factory : M (Server * World) positive :=
  λ '(self, w),
    let ref := fresh (dom (heap w)) in
    (inr ref,
     ({| _mapping := _mapping self;
         _tcp_server := _tcp_server self;
         _handlers := {[ref]} ∪ _handlers self |},
      {| loop := loop w;
         heap := <[ref := Handler_init (_mapping self)]> (heap w) |})).

(** [Server.start], with the listening address for its arguments. *)
Definition Server_start (addr : string) : M (Server * World) unit :=
  λ '(self, w),
    match _tcp_server self with
    | Some _ => (inl (RuntimeError "Server is already started"), (self, w))
    | None =>
        match create_server addr (loop w) with
        | (inr srv, l') =>
            (inr (), ({| _mapping := _mapping self;
                         _tcp_server := Some srv;
                         _handlers := _handlers self |},
                      {| loop := l'; heap := heap w |}))
        | (inl e, l') => (inl e, (self, {| loop := l'; heap := heap w |}))
        end
    end.

(** [handler.close()] on the handler a reference points to. *)
Definition close_handler (w : World) (ref : positive) : World :=
  match heap w !! ref with
  | Some h =>
      let '(_, (h', l')) := Handler_close (h, loop w) in
      {| loop := l'; heap := <[ref := h']> (heap w) |}
  | None => w
  end.

(** [handler.wait_closed()] on the handler a reference points to. *)
Definition wait_closed_handler (w : World) (ref : positive) : World :=
  match heap w !! ref with
  | Some h =>
      let '(_, (h', l')) := Handler_wait_closed (h, loop w) in
      {| loop := l'; heap := <[ref := h']> (heap w) |}
  | None => w
  end.

(** [Server.close()] *)
Definition Server_close : M (Server * World) unit :=
  λ '(self, w),
    match _tcp_server self with
    | None => (inl (RuntimeError "Server is not started"), (self, w))
    | Some srv =>
        let w1 := {| loop := tcp_close srv (loop w); heap := heap w |} in
        (inr (), (self, fold_left close_handler (elements (_handlers self)) w1))
    end.

(** [Server.wait_closed()] *)
Definition Server_wait_closed : M (Server * World) unit :=
  λ '(self, w),
    match _tcp_server self with
    | None => (inl (RuntimeError "Server is not started"), (self, w))
    | Some srv =>
        let w1 := {| loop := tcp_wait_closed srv (loop w); heap := heap w |} in
        if bool_decide (_handlers self ≠ ∅)
        then (inr (), (self, fold_left wait_closed_handler
                               (elements (_handlers self)) w1))
        else (inr (), (self, w1))
    end.

(** ** What a call and a run put on the wire *)

Definition is_send (c : call) : bool :=
  match c with
  | CallSend _ _ => true
  | _ => false
  end.

(** The calls that only read from the stream. *)
Definition receives (c : call) : bool :=
  match c with
  | CallRecv | CallAnext => true
  | _ => false
  end.

(** The frames a call of a stream method puts on the wire, from the state
    it is called in. *)
Definition frames_of_call (self : Stream) (c : call) : list frame :=
  match c with
  | CallSend msg end_ => frames_of_send self msg end_
  | CallEnd t | CallMaybeEnd t =>
      if _ended self then [] else [Headers (default (_trailers self) t) true]
  | CallReset => [RstStream]
  | CallRecv | CallAnext => []
  end.

(** The messages of the data frames of a wire, in order. *)
Fixpoint messages_on (w : list frame) : list message :=
  match w with
  | [] => []
  | Data msg :: w => msg :: messages_on w
  | _ :: w => messages_on w
  end.

(** The method functions that send nothing: they only receive. *)
Fixpoint silent (p : coroutine) : Prop :=
  match p with
  | Return | Raise _ => True
  | Await c k => receives c = true ∧ ∀ r, silent (k r)
  end.

(** A frame that is neither initial headers nor data. *)
Definition is_quiet (f : frame) : bool := negb (is_initial f) && negb (is_data f).

(** The handler that [Handler.close()] leaves behind. *)
Definition closed (self : Handler) : Handler :=
  {| mapping := mapping self;
     tasks := tasks self;
     _cancelled := _cancelled self ∪ list_to_set (values (tasks self)) |}.

(** The request passes the three validations of [request_handler] and
    resolves to [method]. *)
Definition accepts (mapping : gmap string Method) (headers : header_list)
    (method : Method) : Prop :=
  dict headers !! ":method" = Some "POST" ∧
  (∃ p, dict headers !! ":path" = Some p ∧ mapping !! p = Some method) ∧
  (∃ c, dict headers !! "content-type" = Some c ∧ c ∈ CONTENT_TYPES).

(** The first of the three headers [request_handler] reads that the
    request does not carry. *)
Definition first_missing (headers : header_list) : option string :=
  List.find (λ k, bool_decide (dict headers !! k = None))
    [":method"; ":path"; "content-type"].

(** ** The validation rule in the specification's words

    Read on any header list: the request is turned down when its method
    is not POST, when its path resolves to no descriptor, or when its
    content type is not an accepted one. *)
Definition spec_rejects (mapping : gmap string Method)
    (headers : header_list) : Prop :=
  dict headers !! ":method" ≠ Some "POST" ∨
  (dict headers !! ":path" ≫= λ p, mapping !! p) = None ∨
  ¬ (∃ c, dict headers !! "content-type" = Some c ∧ c ∈ CONTENT_TYPES).

End Grpc.

(** The computation stopped on a failed [assert]. *)
Definition assertion_failure {S A} (r : (exn + A) * S) : Prop :=
  ∃ arg, outcome r = inl (AssertionError arg).

Arguments frame : clear implicits.
Arguments h2stream : clear implicits.
Arguments Stream : clear implicits.
Arguments call : clear implicits.
Arguments coroutine : clear implicits.
Arguments Method : clear implicits.
Arguments Runtime : clear implicits.
Arguments request : clear implicits.
Arguments Loop : clear implicits.
Arguments Handler : clear implicits.
Arguments Server : clear implicits.
Arguments World : clear implicits.

(** ** A sequence of [send] calls

    The calls of a caller that goes on after a failed [assert] (the state
    is threaded whatever each call returned). *)
Definition send_all {message pytype : Type} (isinstance : message → pytype → bool)
    (calls : list (message * bool)) (self : Stream message pytype)
  : Stream message pytype :=
  fold_left (λ s c, final (Stream_send isinstance c.1 c.2 s)) calls self.

(** ** A greeter service

    The instance used to run the definitions: two protobuf classes, the
    content types of [grpclib.stream], and a few method functions. *)
Module Greeter.

Inductive pb_class : Type := HelloRequest | HelloReply.

Record pb_message : Type := mkMessage {
  pb_type : pb_class;
  pb_text : string
}.

#[global] Instance pb_class_eq_dec : EqDecision pb_class.
Proof. solve_decision. Defined.

Definition isinstance (m : pb_message) (c : pb_class) : bool :=
  bool_decide (pb_type m = c).

Definition CONTENT_TYPE : string := "application/grpc+proto".
Definition CONTENT_TYPES : gset string :=
  {["application/grpc"; "application/grpc+proto"]}.

Definition hello : pb_message := mkMessage HelloReply "Hello, world".
Definition stray : pb_message := mkMessage HelloRequest "world".

(** [async def f(stream): await stream.end()] *)
Definition ends_itself : coroutine pb_message :=
  Await (CallEnd None) (λ _, Return).

(** [async def f(stream): await stream.send(hello, end=True)] *)
Definition sends_and_ends : coroutine pb_message :=
  Await (CallSend hello true)
    (λ r, match r with inl e => Raise e | inr _ => Return end).

(** [async def f(stream): await stream.send(hello); raise ValueError()] *)
Definition sends_then_raises : coroutine pb_message :=
  Await (CallSend hello false)
    (λ r, match r with
          | inl e => Raise e
          | inr _ => Raise (ApplicationError "ValueError")
          end).

Definition method_of (f : coroutine pb_message) : Method pb_message pb_class :=
  {| func := f; request_type := HelloRequest; reply_type := HelloReply |}.

Definition routes : gmap string (Method pb_message pb_class) :=
  {[ "/helloworld.Greeter/SayHello" := method_of sends_and_ends;
     "/helloworld.Greeter/Close" := method_of ends_itself;
     "/helloworld.Greeter/Fail" := method_of sends_then_raises ]}.

Definition request_headers (path : string) : header_list :=
  [(":method", "POST"); (":scheme", "http"); (":path", path);
   ("content-type", "application/grpc+proto")].

(** The same request without a content type. *)
Definition bare_headers (path : string) : header_list :=
  [(":method", "POST"); (":scheme", "http"); (":path", path)].

(** Two handler groups that register the same path. *)
Definition group_a : gmap string (Method pb_message pb_class) :=
  {[ "/helloworld.Greeter/SayHello" := method_of ends_itself ]}.
Definition group_b : gmap string (Method pb_message pb_class) :=
  {[ "/helloworld.Greeter/SayHello" := method_of sends_and_ends ]}.

Definition idle : h2stream pb_message := {| wire := []; inbox := [] |}.
Definition boot : Runtime pb_message := {| h2 := idle; log := [] |}.

Definition fresh_stream : Stream pb_message pb_class :=
  Stream_init idle HelloRequest HelloReply
    (initial_headers CONTENT_TYPE) success_trailers.

Definition quiet_loop : Loop pb_message pb_class :=
  {| next_id := 1%positive; scheduled := ∅; cancel_requested := ∅;
     joined := ∅; listeners := ∅; listeners_awaited := ∅ |}.

Definition cold_world : World pb_message pb_class :=
  {| loop := quiet_loop; heap := ∅ |}.

Definition greeter_server : Server pb_message pb_class :=
  Server_init [routes].

(** A connection's handler after two streams were accepted. *)
Definition busy_handler
  : (exn + unit) * (Handler pb_message pb_class * Loop pb_message pb_class) :=
  (Handler_accept 1%positive (request_headers "/helloworld.Greeter/SayHello");;
   Handler_accept 3%positive (request_headers "/helloworld.Greeter/Fail"))
    (Handler_init routes, quiet_loop).

Definition handle (headers : header_list) : (exn + unit) * Runtime pb_message :=
  request_handler isinstance CONTENT_TYPE CONTENT_TYPES routes headers boot.

(** [async def f(stream): await stream.send(hello); raise KeyboardInterrupt()] *)
Definition interrupted : coroutine pb_message :=
  Await (CallSend hello false)
    (λ r, match r with
          | inl e => Raise e
          | inr _ => Raise (BaseException "KeyboardInterrupt")
          end).

(** [async def f(stream): await stream.recv()] *)
Definition listens : coroutine pb_message :=
  Await CallRecv (λ r, match r with inl e => Raise e | inr _ => Return end).

(** [async def f(stream): await stream.send(hello)] *)
Definition replies : coroutine pb_message :=
  Await (CallSend hello false)
    (λ r, match r with inl e => Raise e | inr _ => Return end).

Definition more_routes : gmap string (Method pb_message pb_class) :=
  {[ "/helloworld.Greeter/Stop" := method_of interrupted;
     "/helloworld.Greeter/Listen" := method_of listens;
     "/helloworld.Greeter/Reply" := method_of replies ]}.

(** A started server with one connection that has two streams open. *)
Definition busy_server : Server pb_message pb_class :=
  {| _mapping := routes; _tcp_server := Some 9%positive;
     _handlers := {[ 1%positive ]} |}.

Definition busy_world : World pb_message pb_class :=
  {| loop := (final busy_handler).2;
     heap := {[ 1%positive := (final busy_handler).1 ]} |}.

End Greeter.

(** * Properties *)

Section Properties.

Context {message pytype : Type}.
Variable isinstance : message → pytype → bool.
Variable CONTENT_TYPE : string.
Variable CONTENT_TYPES : gset string.

Local Abbreviation Stream := (Stream message pytype).
Local Abbreviation Method := (Method message pytype).
Local Abbreviation Runtime := (Runtime message).
Local Abbreviation send := (Stream_send isinstance).
Local Abbreviation Headers := (@Headers message).
Local Abbreviation frames_of_send := (frames_of_send isinstance).

Implicit Types (self : Stream) (msg : message) (t : option header_list).

(** ** Stream *)

Ltac unfold_m :=
  unfold Stream_send, Stream_maybe_end, Stream_end, Stream_reset,
    Stream_recv, Stream_anext, on_stream, send_headers, codec_send,
    codec_recv, h2_reset, py_assert, get, modify, raise, mbind, M_bind,
    mret, M_ret, outcome, final.

Lemma same_settings_refl self : same_settings self self.
Proof. by repeat split. Qed.

Lemma same_settings_trans self1 self2 self3 :
  same_settings self1 self2 → same_settings self2 self3 →
  same_settings self1 self3.
Proof. unfold same_settings. intuition congruence. Qed.

(** [end] on a stream whose flag is down: the trailers go out. *)
Lemma Stream_end_run self t :
  _ended self = false →
  Stream_end t self =
    (inr (), set_stream (emit (Headers (default (_trailers self) t) true)
                           (_stream self)) self).
Proof. intros E. unfold_m. by rewrite E. Qed.

(** [end] on a stream whose flag is up: the assertion fails, nothing is
    sent. *)
Lemma Stream_end_raised self t :
  _ended self = true →
  Stream_end t self = (inl (AssertionError None), self).
Proof. intros E. unfold_m. by rewrite E. Qed.

Lemma Stream_maybe_end_run self t :
  _ended self = false →
  Stream_maybe_end t self =
    (inr (), set_stream (emit (Headers (default (_trailers self) t) true)
                           (_stream self)) self).
Proof.
  intros E. unfold Stream_maybe_end, mbind, M_bind, get. rewrite E. simpl.
  by apply Stream_end_run.
Qed.

Lemma Stream_send_sent self msg end_ :
  sent (final (send msg end_ self)) = sent self ++ frames_of_send self msg end_.
Proof.
  destruct self as [[w i] rt st hs ts sent_ ended].
  unfold frames_of_send, sent. unfold_m. simpl.
  destruct sent_, (isinstance msg st) eqn:I, end_, ended; simpl;
    rewrite ?I; simpl; rewrite ?I; simpl;
    by rewrite <- ?app_assoc, ?app_nil_r.
Qed.

Lemma Stream_send_flag self msg end_ :
  _headers_sent (final (send msg end_ self)) = true.
Proof.
  destruct self as [[w i] rt st hs ts sent_ ended].
  unfold_m. simpl.
  by destruct sent_, (isinstance msg st) eqn:I, end_, ended; simpl;
    rewrite ?I; simpl; rewrite ?I; simpl.
Qed.

Lemma Stream_send_settings self msg end_ :
  same_settings self (final (send msg end_ self)).
Proof.
  destruct self as [[w i] rt st hs ts sent_ ended].
  unfold same_settings. unfold_m. simpl.
  by destruct sent_, (isinstance msg st) eqn:I, end_, ended; simpl;
    rewrite ?I; simpl; rewrite ?I; simpl.
Qed.

Lemma Stream_send_wrong_type self msg end_ :
  isinstance msg (_send_type self) = false →
  outcome (send msg end_ self) = inl (AssertionError None).
Proof.
  intros I. destruct self as [[w i] rt st hs ts sent_ ended].
  simpl in I. unfold_m. simpl.
  by destruct sent_; simpl; rewrite I.
Qed.

(** C9: a first [send] of a message of the wrong type has put the initial
    headers on the wire and raised the headers-sent flag by the time its
    type assertion fails. *)
Theorem send_wrong_type_not_atomic self msg end_ :
  _headers_sent self = false →
  isinstance msg (_send_type self) = false →
  outcome (send msg end_ self) = inl (AssertionError None) ∧
  sent (final (send msg end_ self)) = sent self ++ [Headers (_headers self) false] ∧
  _headers_sent (final (send msg end_ self)) = true.
Proof.
  intros Hfresh Hwrong. split; [by apply Stream_send_wrong_type|].
  split; [|apply Stream_send_flag].
  rewrite Stream_send_sent. unfold frames_of_send.
  by rewrite Hfresh, Hwrong.
Qed.

(** Once the flag is up, a [send] emits no initial header frame. *)
Lemma frames_of_send_later self msg end_ :
  _headers_sent self = true →
  Forall (λ f, is_initial f = false) (frames_of_send self msg end_).
Proof.
  intros Hs. unfold frames_of_send. rewrite Hs. simpl.
  destruct (isinstance msg (_send_type self)); [|constructor].
  constructor; [done|].
  destruct (end_ && negb (_ended self)); repeat constructor.
Qed.

Lemma send_all_later (calls : list (message * bool)) : ∀ self,
  _headers_sent self = true →
  ∃ rest, sent (send_all isinstance calls self) = sent self ++ rest ∧
          Forall (λ f, is_initial f = false) rest.
Proof.
  induction calls as [|[msg end_] calls IH]; intros self Hs; simpl.
  - exists []. by rewrite app_nil_r.
  - destruct (IH (final (send msg end_ self))) as (rest & Hrest & Hno).
    { apply Stream_send_flag. }
    exists (frames_of_send self msg end_ ++ rest). split.
    + by rewrite Hrest, Stream_send_sent, app_assoc.
    + apply Forall_app. split; [by apply frames_of_send_later|done].
Qed.

Lemma initials_sent_app (w1 w2 : list (frame message)) :
  initials_sent (w1 ++ w2) = initials_sent w1 + initials_sent w2.
Proof. unfold initials_sent. by rewrite List.filter_app, length_app. Qed.

Lemma initials_sent_none (w : list (frame message)) :
  Forall (λ f, is_initial f = false) w → initials_sent w = 0.
Proof.
  unfold initials_sent. induction 1 as [|f w Hf _ IH]; [done|].
  simpl. by rewrite Hf.
Qed.

(** C5: on a stream that has sent nothing yet, the first [send] of a
    sequence puts the stored initial headers on the wire ahead of
    everything else it emits, and neither it nor any later [send] emits an
    initial header frame again. *)
Theorem send_emits_headers_once self msg end_ (calls : list (message * bool)) :
  _headers_sent self = false →
  ∃ first rest,
    sent (final (send msg end_ self)) =
      sent self ++ Headers (_headers self) false :: first ∧
    sent (send_all isinstance ((msg, end_) :: calls) self) =
      sent self ++ Headers (_headers self) false :: first ++ rest ∧
    Forall (λ f, is_initial f = false) (first ++ rest) ∧
    initials_sent (sent (send_all isinstance ((msg, end_) :: calls) self)) =
      initials_sent (sent self) + 1.
Proof.
  intros Hfresh.
  destruct (send_all_later calls (final (send msg end_ self)))
    as (rest & Hrest & Hno); [apply Stream_send_flag|].
  pose (first := if isinstance msg (_send_type self)
                 then Data msg :: (if end_ && negb (_ended self)
                                   then [Headers (_trailers self) true] else [])
                 else []).
  assert (Hfirst : frames_of_send self msg end_ =
                   Headers (_headers self) false :: first).
  { unfold frames_of_send. by rewrite Hfresh. }
  assert (Hnf : Forall (λ f : frame message, is_initial f = false) first).
  { subst first. destruct (isinstance msg (_send_type self)); [|constructor].
    constructor; [done|].
    destruct (end_ && negb (_ended self)); repeat constructor. }
  assert (Hall : sent (send_all isinstance ((msg, end_) :: calls) self) =
                 sent self ++ Headers (_headers self) false :: first ++ rest).
  { simpl. rewrite Hrest, Stream_send_sent, Hfirst.
    by rewrite <- app_assoc. }
  exists first, rest. split; [by rewrite Stream_send_sent, Hfirst|].
  split; [done|]. split; [by apply Forall_app|].
  rewrite Hall, initials_sent_app. f_equal.
  change (Headers (_headers self) false :: first ++ rest)
    with ([Headers (_headers self) false] ++ (first ++ rest)).
  rewrite initials_sent_app, (initials_sent_none (first ++ rest));
    [done|by apply Forall_app].
Qed.

(** ** Method functions and dispatch *)

Local Abbreviation run := (run isinstance).
Local Abbreviation perform := (perform isinstance).
Local Abbreviation serve := (serve isinstance CONTENT_TYPE).
Local Abbreviation stream_for := (@stream_for message pytype CONTENT_TYPE).
Local Abbreviation request_handler :=
  (request_handler isinstance CONTENT_TYPE CONTENT_TYPES).

Lemma perform_settings (c : call message) self :
  same_settings self (final (perform c self)).
Proof.
  destruct c as [msg end_|t|t| | |]; simpl.
  - pose proof (Stream_send_settings self msg end_) as H.
    unfold returns_None, mbind, M_bind, final in *.
    by destruct (send msg end_ self) as [[e|[]] s'].
  - destruct self as [[w i] rt st hs ts sent_ ended].
    unfold same_settings, returns_None. unfold_m. simpl.
    by destruct ended.
  - destruct self as [[w i] rt st hs ts sent_ ended].
    unfold same_settings, returns_None. unfold_m. simpl.
    by destruct ended.
  - by destruct self as [[w i] rt st hs ts sent_ ended].
  - destruct self as [[w i] rt st hs ts sent_ ended].
    unfold same_settings. unfold_m. simpl. by destruct i.
  - destruct self as [[w i] rt st hs ts sent_ ended].
    unfold same_settings. unfold_m. simpl. by destruct i.
Qed.

(** No run of a method function changes the [_ended] flag, nor the
    headers, trailers and types the stream was built with. *)
Lemma run_settings (p : coroutine message) : ∀ self,
  same_settings self (final (run p self)).
Proof.
  induction p as [|e|c k IH]; intros self; simpl;
    try apply same_settings_refl.
  pose proof (perform_settings c self) as Hc.
  destruct (perform c self) as [r self']. simpl in Hc.
  eapply same_settings_trans; [exact Hc|apply IH].
Qed.

Lemma run_not_ended (p : coroutine message) self :
  _ended self = false → _ended (final (run p self)) = false.
Proof. intros E. destruct (run_settings p self) as [H _]. congruence. Qed.

Lemma serve_raised (method : Method) (rt : Runtime) e stream' :
  run (func method) (stream_for method rt) = (inl e, stream') →
  is_Exception e = true →
  serve method rt =
    (inr (), {| h2 := emit (Headers failure_trailers true) (_stream stream');
                log := log rt ++ [("Server error", e)] |}).
Proof.
  intros Hrun Hexc. unfold serve. fold (stream_for method rt).
  pose proof (run_not_ended (func method) (stream_for method rt) eq_refl) as E.
  rewrite Hrun in *. simpl in E. rewrite Hexc.
  by rewrite (Stream_maybe_end_run _ _ E).
Qed.

Lemma serve_returned (method : Method) (rt : Runtime) stream' :
  run (func method) (stream_for method rt) = (inr (), stream') →
  serve method rt =
    (inr (), {| h2 := emit (Headers success_trailers true) (_stream stream');
                log := log rt |}).
Proof.
  intros Hrun. unfold serve. fold (stream_for method rt).
  pose proof (run_settings (func method) (stream_for method rt))
    as (E & _ & T & _).
  rewrite Hrun in *. simpl in E, T.
  by rewrite (Stream_maybe_end_run _ _ E), T.
Qed.

(** Nothing that derives from [Exception] leaves [serve]. *)
Lemma serve_outcome (method : Method) (rt : Runtime) :
  outcome (serve method rt) = inr () ∨
  ∃ e, outcome (serve method rt) = inl e ∧ is_Exception e = false.
Proof.
  destruct (run (func method) (stream_for method rt)) as [[e|[]] stream'] eqn:Hrun.
  - destruct (is_Exception e) eqn:Hexc.
    + left. by rewrite (serve_raised _ _ _ _ Hrun Hexc).
    + right. exists e. unfold serve. fold (stream_for method rt).
      by rewrite Hrun, Hexc.
  - left. by rewrite (serve_returned _ _ _ Hrun).
Qed.

(** [request_handler] on a header list that has the three entries it
    reads. *)
Lemma request_handler_run (mapping : gmap string Method) headers rt m p c :
  dict headers !! ":method" = Some m →
  dict headers !! ":path" = Some p →
  dict headers !! "content-type" = Some c →
  request_handler mapping headers rt =
    if bool_decide (m = "POST") then
      match mapping !! p with
      | None => (inl (AssertionError (Some p)), rt)
      | Some method =>
          if bool_decide (c ∈ CONTENT_TYPES) then serve method rt
          else (inl (AssertionError (Some c)), rt)
      end
    else (inl (AssertionError (Some m)), rt).
Proof.
  intros Hm Hp Hc. unfold request_handler, getitem.
  unfold mbind, M_bind. rewrite Hm, Hp, Hc. simpl.
  unfold py_assert. destruct (bool_decide (m = "POST")); simpl; [|done].
  destruct (mapping !! p) as [method|]; [|done].
  by destruct (bool_decide (c ∈ CONTENT_TYPES)).
Qed.

(** The headers the stream of a request is built with. *)
Lemma stream_for_headers (method : Method) (rt : Runtime) :
  _headers (stream_for method rt) =
    [(":status", "200"); ("content-type", CONTENT_TYPE)] ∧
  _trailers (stream_for method rt) = [("grpc-status", "0")] ∧
  _headers_sent (stream_for method rt) = false ∧
  _ended (stream_for method rt) = false.
Proof. done. Qed.

(** C4 (amended): when the method function raises an exception that
    derives from [Exception], which is what [except Exception] catches,
    [request_handler] logs it, calls [maybe_end] with the failure
    trailers, which puts the frame [grpc-status: 2] on the wire, and
    returns without raising. *)
Theorem request_handler_failure (mapping : gmap string Method) headers rt
    path c method e stream' :
  dict headers !! ":method" = Some "POST" →
  dict headers !! ":path" = Some path →
  dict headers !! "content-type" = Some c →
  mapping !! path = Some method →
  c ∈ CONTENT_TYPES →
  run (func method) (stream_for method rt) = (inl e, stream') →
  is_Exception e = true →
  outcome (request_handler mapping headers rt) = inr () ∧
  log (final (request_handler mapping headers rt)) =
    log rt ++ [("Server error", e)] ∧
  h2 (final (request_handler mapping headers rt)) =
    _stream (final (Stream_maybe_end (Some failure_trailers) stream')) ∧
  wire (h2 (final (request_handler mapping headers rt))) =
    sent stream' ++ [Headers [("grpc-status", "2")] true].
Proof.
  intros Hm Hp Hc Hmethod Hct Hrun Hexc.
  rewrite (request_handler_run _ _ _ _ _ _ Hm Hp Hc).
  rewrite bool_decide_eq_true_2 by done. rewrite Hmethod.
  rewrite bool_decide_eq_true_2 by done.
  rewrite (serve_raised _ _ _ _ Hrun Hexc).
  pose proof (run_not_ended (func method) (stream_for method rt) eq_refl) as E.
  rewrite Hrun in E. simpl in E.
  rewrite (Stream_maybe_end_run _ _ E). by repeat split.
Qed.

(** C6 (amended): on a header list that carries [:method], [:path] and
    [content-type], [request_handler] stops on a failed assertion exactly
    when the method is not POST, or the path is not in the mapping, or the
    content type is not an accepted one; when the three hold it goes on
    to build the stream and await the method function. *)
Theorem request_handler_validation (mapping : gmap string Method) headers rt
    m p c :
  dict headers !! ":method" = Some m →
  dict headers !! ":path" = Some p →
  dict headers !! "content-type" = Some c →
  (assertion_failure (request_handler mapping headers rt) ↔
     m ≠ "POST" ∨ mapping !! p = None ∨ c ∉ CONTENT_TYPES) ∧
  (∀ method, m = "POST" → mapping !! p = Some method → c ∈ CONTENT_TYPES →
     request_handler mapping headers rt = serve method rt).
Proof.
  intros Hm Hp Hc. rewrite (request_handler_run _ _ _ _ _ _ Hm Hp Hc).
  unfold assertion_failure. split.
  - case_bool_decide as Hpost; simpl.
    2:{ split; [by left|]. intros _. by eexists. }
    destruct (mapping !! p) as [method|] eqn:Hmethod; simpl.
    2:{ split; [by right; left|]. intros _. by eexists. }
    case_bool_decide as Hct; simpl.
    2:{ split; [by right; right|]. intros _. by eexists. }
    split.
    + intros [arg Harg].
      destruct (serve_outcome method rt) as [Hok|(e & He & Hbase)].
      * rewrite Hok in Harg. discriminate.
      * rewrite He in Harg. injection Harg as ->. discriminate.
    + intros [?|[?|?]]; done.
  - intros method -> Hmethod Hct. rewrite Hmethod.
    by rewrite !bool_decide_eq_true_2.
Qed.

(** ** Handler *)

Local Abbreviation Handler := (Handler message pytype).
Local Abbreviation Loop := (Loop message pytype).
Local Abbreviation Server := (Server message pytype).
Local Abbreviation World := (World message pytype).

Lemma elem_of_values (d : gmap positive positive) (task : positive) :
  task ∈ values d ↔ ∃ stream, d !! stream = Some task.
Proof.
  unfold values. rewrite list_elem_of_fmap. split.
  - intros ([stream task'] & -> & H). exists stream.
    by apply elem_of_map_to_list in H.
  - intros [stream H]. exists (stream, task). split; [done|].
    by apply elem_of_map_to_list.
Qed.

(** Cancelling a list of tasks one after the other. *)
Lemma cancel_each (ts : list positive) : ∀ l : Loop,
  cancel_requested (fold_left (λ l task, Task_cancel task l) ts l) =
    list_to_set ts ∪ cancel_requested l.
Proof.
  induction ts as [|task ts IH]; intros l; simpl.
  - by rewrite (left_id_L ∅ (∪)).
  - rewrite IH. simpl.
    by rewrite (assoc_L (∪)), (comm_L (∪) (list_to_set ts) {[task]}).
Qed.

Lemma cancel_each_frame (ts : list positive) : ∀ l : Loop,
  let l' := fold_left (λ l task, Task_cancel task l) ts l in
  scheduled l' = scheduled l ∧ joined l' = joined l ∧
  next_id l' = next_id l ∧ listeners l' = listeners l.
Proof.
  induction ts as [|task ts IH]; intros l; simpl; [done|].
  destruct (IH (Task_cancel task l)) as (? & ? & ? & ?). by repeat split.
Qed.

(** C8: [Handler.close()] returns normally, has called [cancel()] on every
    task of the task table (and on no other task), has added them all to
    the cancelled set, which keeps the tasks it held, and leaves the task
    table as it was. *)
Theorem Handler_close_cancels_all (self : Handler) (l : Loop) :
  let r := Handler_close (self, l) in
  outcome r = inr () ∧
  tasks (final r).1 = tasks self ∧
  (∀ stream task, tasks self !! stream = Some task →
     task ∈ cancel_requested (final r).2 ∧ task ∈ _cancelled (final r).1) ∧
  (∀ task, task ∈ _cancelled (final r).1 ↔
     task ∈ _cancelled self ∨ ∃ stream, tasks self !! stream = Some task) ∧
  (∀ task, task ∈ cancel_requested (final r).2 ↔
     task ∈ cancel_requested l ∨ ∃ stream, tasks self !! stream = Some task).
Proof.
  simpl. unfold outcome, final. simpl. rewrite cancel_each.
  split; [done|]. split; [done|].
  assert (Hin : ∀ task, task ∈ (list_to_set (values (tasks self)) : gset positive)
                        ↔ ∃ stream, tasks self !! stream = Some task).
  { intros task. by rewrite elem_of_list_to_set, elem_of_values. }
  split; [|split].
  - intros stream task Htask.
    split; apply elem_of_union; [left|right]; apply Hin; eauto.
  - intros task. rewrite elem_of_union, Hin. done.
  - intros task. rewrite elem_of_union, Hin. tauto.
Qed.

(** ** Server *)

Lemma fold_update_absent (path : string) (groups : list (gmap string Method)) :
  ∀ mapping : gmap string Method,
  Forall (λ g : gmap string Method, g !! path = None) groups →
  fold_left update groups mapping !! path = mapping !! path.
Proof.
  induction groups as [|g groups IH]; intros mapping Hnone; simpl; [done|].
  inversion Hnone as [|? ? Hg Hrest]; subst.
  rewrite IH by done. unfold update. by rewrite lookup_union_r.
Qed.

(** C10: the merged mapping binds a path to the descriptor given by the
    last handler group that has the path, whatever earlier groups bound
    it to; [Server_init] is total, it has no failing outcome. *)
Theorem Server_init_last_wins (earlier later : list (gmap string Method))
    (group : gmap string Method) (path : string) (method : Method) :
  group !! path = Some method →
  Forall (λ g : gmap string Method, g !! path = None) later →
  _mapping (Server_init (earlier ++ group :: later)) !! path = Some method.
Proof.
  intros Hgroup Hlater. unfold Server_init. simpl.
  rewrite fold_left_app. simpl. rewrite fold_update_absent by done.
  unfold update. by rewrite (lookup_union_Some_l _ _ _ _ Hgroup).
Qed.

(** C7: [start] on a started server raises the invalid-state error, and so
    do [close] and [wait_closed] on a server never started, each leaving
    the state as it was; [start] on a server never started raises no
    [RuntimeError], and once it has succeeded [close] and [wait_closed]
    return normally. *)
Theorem Server_invalid_state (self : Server) (w : World) (addr : string) :
  (is_Some (_tcp_server self) →
     Server_start addr (self, w) =
       (inl (RuntimeError "Server is already started"), (self, w))) ∧
  (_tcp_server self = None →
     Server_close (self, w) =
       (inl (RuntimeError "Server is not started"), (self, w)) ∧
     Server_wait_closed (self, w) =
       (inl (RuntimeError "Server is not started"), (self, w))) ∧
  (_tcp_server self = None →
     ∀ text, outcome (Server_start addr (self, w)) ≠ inl (RuntimeError text)) ∧
  (∀ st, Server_start addr (self, w) = (inr (), st) →
     is_Some (_tcp_server st.1) ∧
     outcome (Server_close st) = inr () ∧
     outcome (Server_wait_closed st) = inr () ∧
     ∀ addr', Server_start addr' st =
                (inl (RuntimeError "Server is already started"), st)).
Proof.
  split; [|split; [|split]].
  - intros [srv Hsrv]. unfold Server_start. by rewrite Hsrv.
  - intros Hnone. unfold Server_close, Server_wait_closed. by rewrite Hnone.
  - intros Hnone text. unfold Server_start, create_server. rewrite Hnone.
    by destruct (address_in_use addr (loop w)).
  - intros [self' w'] Hstart. unfold Server_start, create_server in Hstart.
    destruct (_tcp_server self) as [srv|]; [discriminate|].
    destruct (address_in_use addr (loop w)); [discriminate|].
    injection Hstart as <- <-. simpl.
    split; [by eexists|]. unfold Server_close, Server_wait_closed. simpl.
    split; [done|]. split; [by case_bool_decide|done].
Qed.

(** ** Trailer frames *)

Lemma trailers_sent_app (w1 w2 : list (frame message)) :
  trailers_sent (w1 ++ w2) = trailers_sent w1 + trailers_sent w2.
Proof. unfold trailers_sent. by rewrite List.filter_app, length_app. Qed.

Lemma emit_trailer (hs : header_list) (st : h2stream message) :
  trailers_sent (wire (emit (Headers hs true) st)) = trailers_sent (wire st) + 1.
Proof. simpl. by rewrite trailers_sent_app. Qed.

Lemma perform_leaves_open (c : call message) self :
  ends_stream c = false →
  trailers_sent (sent (final (perform c self))) = trailers_sent (sent self).
Proof.
  destruct c as [msg [|]|t|t| | |]; try discriminate; intros _; simpl.
  - pose proof (Stream_send_sent self msg false) as H.
    unfold returns_None, mbind, M_bind, final in *.
    destruct (send msg false self) as [[e|[]] s']; simpl in *;
      rewrite H, trailers_sent_app; unfold frames_of_send;
      unfold trailers_sent at 2;
      destruct (_headers_sent self), (isinstance msg (_send_type self));
      simpl; lia.
  - destruct self as [[w i] rt st hs ts sent_ ended]. unfold sent. simpl.
    rewrite trailers_sent_app. unfold trailers_sent at 2. simpl. lia.
  - destruct self as [[w i] rt st hs ts sent_ ended]. unfold sent.
    unfold_m. simpl. by destruct i.
  - destruct self as [[w i] rt st hs ts sent_ ended]. unfold sent.
    unfold_m. simpl. by destruct i.
Qed.

Lemma run_leaves_open (p : coroutine message) : ∀ self,
  leaves_open p →
  trailers_sent (sent (final (run p self))) = trailers_sent (sent self).
Proof.
  induction p as [|e|c k IH]; intros self Hopen; simpl; try done.
  destruct Hopen as [Hc Hk].
  pose proof (perform_leaves_open c self Hc) as Hsame.
  destruct (perform c self) as [r self']. simpl in Hsame.
  by rewrite IH.
Qed.

(** When [serve] returns, it has added one trailer frame to what the
    method function left on the wire. *)
Lemma serve_adds_trailer (method : Method) (rt : Runtime) :
  outcome (serve method rt) = inr () →
  trailers_sent (wire (h2 (final (serve method rt)))) =
    trailers_sent (sent (final (run (func method) (stream_for method rt)))) + 1.
Proof.
  destruct (run (func method) (stream_for method rt)) as [[e|[]] stream'] eqn:Hrun.
  - destruct (is_Exception e) eqn:Hexc.
    + intros _. rewrite (serve_raised _ _ _ _ Hrun Hexc). apply emit_trailer.
    + unfold serve. by rewrite Hrun, Hexc.
  - intros _. rewrite (serve_returned _ _ _ Hrun). apply emit_trailer.
Qed.

(** A method function that does not end the stream itself gets exactly
    one trailer frame from [serve]. *)
Lemma serve_one_trailer (method : Method) (rt : Runtime) :
  leaves_open (func method) →
  outcome (serve method rt) = inr () →
  trailers_sent (wire (h2 (final (serve method rt)))) =
    trailers_sent (wire (h2 rt)) + 1.
Proof.
  intros Hopen Hok. rewrite (serve_adds_trailer _ _ Hok).
  by rewrite (run_leaves_open _ _ Hopen).
Qed.

(** * Further properties *)

(** ** Stream *)

(** X1: [send] returns normally exactly when the message has the stream's
    send type and, with [end=True], the ended flag is down; otherwise it
    raises the [AssertionError] of an [assert] without argument. *)
Theorem Stream_send_outcome self msg end_ :
  outcome (send msg end_ self) =
    if isinstance msg (_send_type self) && (negb end_ || negb (_ended self))
    then inr () else inl (AssertionError None).
Proof.
  destruct self as [[w i] rt st hs ts sent_ ended]. unfold_m. simpl.
  by destruct sent_, (isinstance msg st) eqn:I, end_, ended; simpl;
    rewrite ?I; simpl; rewrite ?I; simpl.
Qed.

(** X2: [send(message, end=True)] is [send(message)] followed by [end()], in
    every state, failures included. *)
Theorem Stream_send_end_composes self msg :
  send msg true self = (send msg false;; Stream_end None) self.
Proof.
  destruct self as [[w i] rt st hs ts sent_ ended]. unfold_m. simpl.
  by destruct sent_, (isinstance msg st) eqn:I, ended; simpl;
    rewrite ?I; simpl; rewrite ?I; simpl.
Qed.

Lemma messages_on_app (w1 w2 : list (frame message)) :
  messages_on (w1 ++ w2) = messages_on w1 ++ messages_on w2.
Proof.
  induction w1 as [|[hs b|m|] w1 IH]; simpl; [done| |by f_equal|]; done.
Qed.

Lemma messages_of_send self msg end_ :
  messages_on (frames_of_send self msg end_) =
    if isinstance msg (_send_type self) then [msg] else [].
Proof.
  unfold frames_of_send.
  by destruct (_headers_sent self), (isinstance msg (_send_type self)),
    end_, (_ended self).
Qed.

(** X3: The data frames a sequence of [send] calls leaves on the wire carry
    the messages of the stream's send type, in call order; a message of
    another type never reaches the wire. *)
Theorem send_all_messages_in_order (calls : list (message * bool)) : ∀ self,
  messages_on (sent (send_all isinstance calls self)) =
    messages_on (sent self) ++
    List.filter (λ msg, isinstance msg (_send_type self)) calls.*1.
Proof.
  induction calls as [|[msg end_] calls IH]; intros self; simpl.
  - by rewrite app_nil_r.
  - rewrite IH, Stream_send_sent, messages_on_app, messages_of_send.
    destruct (Stream_send_settings self msg end_) as (_ & _ & _ & -> & _).
    rewrite <- app_assoc.
    by destruct (isinstance msg (_send_type self)).
Qed.

(** X4: [__anext__] leaves the stream as [recv] does and puts nothing on the
    wire; it returns the message [recv] returned, and raises
    [StopAsyncIteration] exactly when [recv] returned [None]. *)
Theorem Stream_anext_follows_recv self :
  final (Stream_anext self) = final (Stream_recv self) ∧
  sent (final (Stream_anext self)) = sent self ∧
  same_settings self (final (Stream_anext self)) ∧
  _headers_sent (final (Stream_anext self)) = _headers_sent self ∧
  match outcome (Stream_recv self) with
  | inr (Some m) => outcome (Stream_anext self) = inr (Some m)
  | inr None => outcome (Stream_anext self) = inl StopAsyncIteration
  | inl e => outcome (Stream_anext self) = inl e
  end.
Proof.
  destruct self as [[w i] rt st hs ts sent_ ended].
  unfold same_settings, sent. unfold_m. simpl. by destruct i.
Qed.

(** ** Runs of a method function *)

Lemma perform_sent (c : call message) self :
  sent (final (perform c self)) = sent self ++ frames_of_call isinstance self c.
Proof.
  destruct c as [msg end_|t|t| | |]; simpl.
  - pose proof (Stream_send_sent self msg end_) as H.
    unfold returns_None, mbind, M_bind, final in *.
    by destruct (send msg end_ self) as [[e|[]] s'].
  - destruct self as [[w i] rt st hs ts sent_ ended].
    unfold returns_None, sent. unfold_m. simpl.
    destruct ended; simpl; by rewrite ?app_nil_r.
  - destruct self as [[w i] rt st hs ts sent_ ended].
    unfold returns_None, sent. unfold_m. simpl.
    destruct ended; simpl; by rewrite ?app_nil_r.
  - by destruct self as [[w i] rt st hs ts sent_ ended].
  - destruct self as [[w i] rt st hs ts sent_ ended].
    unfold sent. unfold_m. simpl. destruct i; simpl; by rewrite app_nil_r.
  - destruct self as [[w i] rt st hs ts sent_ ended].
    unfold sent. unfold_m. simpl. destruct i; simpl; by rewrite app_nil_r.
Qed.

Lemma perform_flag (c : call message) self :
  _headers_sent (final (perform c self)) = _headers_sent self || is_send c.
Proof.
  destruct c as [msg end_|t|t| | |]; simpl.
  - pose proof (Stream_send_flag self msg end_) as H.
    unfold returns_None, mbind, M_bind, final in *.
    destruct (send msg end_ self) as [[e|[]] s']; simpl in *;
      rewrite H; by destruct (_headers_sent self).
  - destruct self as [[w i] rt st hs ts sent_ ended].
    unfold returns_None. unfold_m. simpl.
    destruct ended; simpl; by rewrite orb_false_r.
  - destruct self as [[w i] rt st hs ts sent_ ended].
    unfold returns_None. unfold_m. simpl.
    destruct ended; simpl; by rewrite orb_false_r.
  - destruct self as [[w i] rt st hs ts sent_ ended]. simpl.
    by rewrite orb_false_r.
  - destruct self as [[w i] rt st hs ts sent_ ended].
    unfold_m. simpl. destruct i; simpl; by rewrite orb_false_r.
  - destruct self as [[w i] rt st hs ts sent_ ended].
    unfold_m. simpl. destruct i; simpl; by rewrite orb_false_r.
Qed.

(** X5: No run of a method function, whatever it calls and however it ends,
    changes the ended flag of the stream, nor the headers, the trailers
    and the message types the stream was built with. *)
Theorem method_function_keeps_settings (p : coroutine message) self :
  _ended (final (run p self)) = _ended self ∧
  _headers (final (run p self)) = _headers self ∧
  _trailers (final (run p self)) = _trailers self ∧
  _send_type (final (run p self)) = _send_type self ∧
  _recv_type (final (run p self)) = _recv_type self.
Proof. apply run_settings. Qed.

Lemma frames_of_call_later (c : call message) self :
  _headers_sent self = true →
  Forall (λ f, is_initial f = false) (frames_of_call isinstance self c).
Proof.
  intros Hs. destruct c as [msg end_|t|t| | |];
    [by apply frames_of_send_later|..]; simpl;
    try (destruct (_ended self)); repeat constructor.
Qed.

Lemma frames_of_call_quiet (c : call message) self :
  is_send c = false →
  Forall (λ f, is_quiet f = true) (frames_of_call isinstance self c).
Proof.
  destruct c as [msg end_|t|t| | |]; try discriminate; intros _; simpl;
    try (destruct (_ended self)); repeat constructor.
Qed.

Lemma run_headers_later (p : coroutine message) : ∀ self,
  _headers_sent self = true →
  ∃ emitted, sent (final (run p self)) = sent self ++ emitted ∧
             Forall (λ f, is_initial f = false) emitted ∧
             _headers_sent (final (run p self)) = true.
Proof.
  induction p as [|e|c k IH]; intros self Hs; simpl.
  - exists []. by rewrite app_nil_r.
  - exists []. by rewrite app_nil_r.
  - pose proof (perform_sent c self) as Hsent.
    pose proof (perform_flag c self) as Hflag.
    destruct (perform c self) as [r self']. simpl in Hsent, Hflag.
    rewrite Hs in Hflag. simpl in Hflag.
    destruct (IH r self' Hflag) as (emitted & Hrun & Hno & Hend).
    exists (frames_of_call isinstance self c ++ emitted).
    rewrite Hrun, Hsent, <- app_assoc. split; [done|]. split; [|done].
    apply Forall_app. split; [by apply frames_of_call_later|done].
Qed.

Lemma initials_sent_quiet (w : list (frame message)) :
  Forall (λ f, is_quiet f = true) w → initials_sent w = 0.
Proof.
  intros H. apply initials_sent_none. eapply Forall_impl; [exact H|].
  intros f. unfold is_quiet. by destruct (is_initial f).
Qed.

(** X6: Over any run of a method function on a stream that has not sent its
    headers, the initial header frame goes out at most once, it carries
    the stored headers, no data frame and no other initial header frame
    precedes it, and none follows it; the headers-sent flag is up at the
    end exactly when it went out. *)
Theorem run_headers_once (p : coroutine message) : ∀ self,
  _headers_sent self = false →
  ∃ quiet rest,
    sent (final (run p self)) = sent self ++ quiet ++ rest ∧
    Forall (λ f, is_quiet f = true) quiet ∧
    ((rest = [] ∧ _headers_sent (final (run p self)) = false) ∨
     (∃ later, rest = Headers (_headers self) false :: later ∧
               Forall (λ f, is_initial f = false) later ∧
               _headers_sent (final (run p self)) = true)) ∧
    initials_sent (sent (final (run p self))) =
      initials_sent (sent self) +
      (if _headers_sent (final (run p self)) then 1 else 0).
Proof.
  assert (Hcount : ∀ (w quiet rest : list (frame message)) (b : bool) hs,
    Forall (λ f, is_quiet f = true) quiet →
    ((rest = [] ∧ b = false) ∨
     (∃ later, rest = Headers hs false :: later ∧
               Forall (λ f, is_initial f = false) later ∧ b = true)) →
    initials_sent (w ++ quiet ++ rest) =
      initials_sent w + (if b then 1 else 0)).
  { intros w quiet rest b hs Hq Hrest.
    rewrite !initials_sent_app, (initials_sent_quiet _ Hq).
    destruct Hrest as [[-> ->]|(later & -> & Hl & ->)]; [done|].
    change (Headers hs false :: later) with ([Headers hs false] ++ later).
    by rewrite initials_sent_app, (initials_sent_none _ Hl). }
  cut (∀ self, _headers_sent self = false →
    ∃ quiet rest,
      sent (final (run p self)) = sent self ++ quiet ++ rest ∧
      Forall (λ f, is_quiet f = true) quiet ∧
      ((rest = [] ∧ _headers_sent (final (run p self)) = false) ∨
       (∃ later, rest = Headers (_headers self) false :: later ∧
                 Forall (λ f, is_initial f = false) later ∧
                 _headers_sent (final (run p self)) = true))).
  { intros Hcut self Hs. destruct (Hcut self Hs) as (quiet & rest & H1 & H2 & H3).
    exists quiet, rest. repeat split; try done.
    rewrite H1. by eapply Hcount. }
  clear Hcount.
  induction p as [|e|c k IH]; intros self Hs; simpl.
  - exists [], []. rewrite app_nil_r. repeat split; [constructor|by left].
  - exists [], []. rewrite app_nil_r. repeat split; [constructor|by left].
  - pose proof (perform_sent c self) as Hsent.
    pose proof (perform_flag c self) as Hflag.
    pose proof (perform_settings c self) as (_ & Hhs & _).
    destruct (perform c self) as [r self']. simpl in Hsent, Hflag, Hhs.
    rewrite Hs in Hflag. simpl in Hflag.
    destruct (is_send c) eqn:Hc.
    + destruct c as [msg end_|t|t| | |]; try discriminate.
      destruct (run_headers_later (k r) self' Hflag) as (emitted & Hrun & Hno & Hend).
      exists [], (frames_of_send self msg end_ ++ emitted).
      split; [by rewrite Hrun, Hsent, <- app_assoc|].
      split; [constructor|]. right.
      unfold frames_of_send. rewrite Hs. simpl. eexists. split; [done|].
      split; [|done]. apply Forall_app. split; [|done].
      destruct (isinstance msg (_send_type self)); [|constructor].
      constructor; [done|].
      destruct (end_ && negb (_ended self)); repeat constructor.
    + destruct (IH r self' Hflag) as (quiet & rest & Hrun & Hq & Hrest).
      exists (frames_of_call isinstance self c ++ quiet), rest.
      split; [by rewrite Hrun, Hsent, <- !app_assoc|].
      split; [apply Forall_app; split; [by apply frames_of_call_quiet|done]|].
      by rewrite <- Hhs.
Qed.

(** ** request_handler *)

Lemma request_handler_accepts (mapping : gmap string Method) headers rt method :
  accepts CONTENT_TYPES mapping headers method →
  request_handler mapping headers rt = serve method rt.
Proof.
  intros (Hm & (p & Hp & Hmethod) & (c & Hc & Hct)).
  rewrite (request_handler_run _ _ _ _ _ _ Hm Hp Hc), Hmethod.
  by rewrite !bool_decide_eq_true_2.
Qed.

(** X7: When the method function returns, [request_handler] returns normally,
    logs nothing and ends the stream with the success trailers
    [grpc-status: 0], the last frame on the wire. *)
Theorem request_handler_success (mapping : gmap string Method) headers rt
    method stream' :
  accepts CONTENT_TYPES mapping headers method →
  run (func method) (stream_for method rt) = (inr (), stream') →
  outcome (request_handler mapping headers rt) = inr () ∧
  log (final (request_handler mapping headers rt)) = log rt ∧
  inbox (h2 (final (request_handler mapping headers rt))) =
    inbox (_stream stream') ∧
  wire (h2 (final (request_handler mapping headers rt))) =
    sent stream' ++ [Headers [("grpc-status", "0")] true].
Proof.
  intros Hacc Hrun. rewrite (request_handler_accepts _ _ _ _ Hacc).
  by rewrite (serve_returned _ _ _ Hrun).
Qed.

(** X8: An exception of the method function that does not derive from
    [Exception] leaves [request_handler] as it is: nothing is logged and
    no trailer frame is sent. *)
Theorem request_handler_base_exception (mapping : gmap string Method)
    headers rt method e stream' :
  accepts CONTENT_TYPES mapping headers method →
  run (func method) (stream_for method rt) = (inl e, stream') →
  is_Exception e = false →
  request_handler mapping headers rt =
    (inl e, {| h2 := _stream stream'; log := log rt |}).
Proof.
  intros Hacc Hrun Hbase. rewrite (request_handler_accepts _ _ _ _ Hacc).
  unfold serve. by rewrite Hrun, Hbase.
Qed.

Lemma dict_fold_None (headers : header_list) (k : string) :
  ∀ d : gmap string string,
  fold_left (λ d kv, <[kv.1 := kv.2]> d) headers d !! k = None ↔
  d !! k = None ∧ k ∉ headers.*1.
Proof.
  induction headers as [|[k' v'] headers IH]; intros d; simpl.
  - split; [intros H; split; [done|apply not_elem_of_nil]|by intros [? _]].
  - rewrite IH, lookup_insert_None, not_elem_of_cons. simpl.
    split.
    + intros [[Hd Hne] Hk]. split; [done|]. split; [|done].
      intros ->. by apply Hne.
    + intros [Hd [Hne Hk]]. split; [|done]. split; [done|].
      intros ->. by apply Hne.
Qed.

Lemma dict_fold_absent (headers : header_list) (k : string) :
  ∀ d : gmap string string,
  k ∉ headers.*1 →
  fold_left (λ d kv, <[kv.1 := kv.2]> d) headers d !! k = d !! k.
Proof.
  induction headers as [|[k' v'] headers IH]; intros d Hk; simpl; [done|].
  apply not_elem_of_cons in Hk as [Hne Hk]. simpl in Hne.
  rewrite IH by done. by rewrite lookup_insert_ne.
Qed.

(** X9: [dict(headers)] gives a name the value of its last pair in the list,
    and has no entry exactly for the names the list does not carry. *)
Theorem dict_last_wins (before after : header_list) (k v : string) :
  (k ∉ after.*1 → dict (before ++ (k, v) :: after) !! k = Some v) ∧
  (∀ headers, dict headers !! k = None ↔ k ∉ headers.*1).
Proof.
  split.
  - intros Hk. unfold dict. rewrite fold_left_app. simpl.
    rewrite dict_fold_absent by done. by rewrite lookup_insert_eq.
  - intros headers. unfold dict. rewrite dict_fold_None.
    rewrite lookup_empty. tauto.
Qed.

Lemma request_handler_no_method (mapping : gmap string Method) headers rt :
  dict headers !! ":method" = None →
  request_handler mapping headers rt = (inl (KeyError ":method"), rt).
Proof.
  intros H. unfold request_handler, getitem, mbind, M_bind. by rewrite H.
Qed.

Lemma request_handler_no_path (mapping : gmap string Method) headers rt m :
  dict headers !! ":method" = Some m →
  dict headers !! ":path" = None →
  request_handler mapping headers rt = (inl (KeyError ":path"), rt).
Proof.
  intros Hm H. unfold request_handler, getitem, mbind, M_bind.
  by rewrite Hm, H.
Qed.

Lemma request_handler_no_content_type (mapping : gmap string Method)
    headers rt m p :
  dict headers !! ":method" = Some m →
  dict headers !! ":path" = Some p →
  dict headers !! "content-type" = None →
  request_handler mapping headers rt = (inl (KeyError "content-type"), rt).
Proof.
  intros Hm Hp H. unfold request_handler, getitem, mbind, M_bind.
  by rewrite Hm, Hp, H.
Qed.

(** X10: [request_handler] raises [KeyError] exactly when the request lacks one
    of [:method], [:path] and [content-type], and the error names the
    first of them, in that order, that is missing. *)
Theorem request_handler_KeyError (mapping : gmap string Method) headers rt k :
  outcome (request_handler mapping headers rt) = inl (KeyError k) ↔
  first_missing headers = Some k.
Proof.
  unfold first_missing. simpl.
  destruct (dict headers !! ":method") as [m|] eqn:Hm.
  2:{ rewrite (request_handler_no_method _ _ _ Hm).
      rewrite bool_decide_eq_true_2 by done. simpl.
      split; intros H; by simplify_eq. }
  rewrite bool_decide_eq_false_2 by done.
  destruct (dict headers !! ":path") as [p|] eqn:Hp.
  2:{ rewrite (request_handler_no_path _ _ _ _ Hm Hp).
      rewrite bool_decide_eq_true_2 by done. simpl.
      split; intros H; by simplify_eq. }
  rewrite bool_decide_eq_false_2 by done.
  destruct (dict headers !! "content-type") as [c|] eqn:Hc.
  2:{ rewrite (request_handler_no_content_type _ _ _ _ _ Hm Hp Hc).
      rewrite bool_decide_eq_true_2 by done. simpl.
      split; intros H; by simplify_eq. }
  rewrite bool_decide_eq_false_2 by done.
  rewrite (request_handler_run _ _ _ _ _ _ Hm Hp Hc).
  split; [|done]. intros H.
  case_bool_decide; [|discriminate].
  destruct (mapping !! p) as [method|]; [|discriminate].
  case_bool_decide; [|discriminate].
  destruct (serve_outcome method rt) as [Hok|(e & He & Hbase)].
  - rewrite Hok in H. discriminate.
  - rewrite He in H. injection H as ->. discriminate.
Qed.

(** X11: Whenever [request_handler] raises an exception that derives from
    [Exception], it has sent nothing and logged nothing: such an
    exception comes from the validation, never from the method function
    or from the closing of the stream. *)
Theorem request_handler_error_leaves_runtime (mapping : gmap string Method)
    headers rt e :
  outcome (request_handler mapping headers rt) = inl e →
  is_Exception e = true →
  final (request_handler mapping headers rt) = rt.
Proof.
  destruct (dict headers !! ":method") as [m|] eqn:Hm.
  2:{ by rewrite (request_handler_no_method _ _ _ Hm). }
  destruct (dict headers !! ":path") as [p|] eqn:Hp.
  2:{ by rewrite (request_handler_no_path _ _ _ _ Hm Hp). }
  destruct (dict headers !! "content-type") as [c|] eqn:Hc.
  2:{ by rewrite (request_handler_no_content_type _ _ _ _ _ Hm Hp Hc). }
  rewrite (request_handler_run _ _ _ _ _ _ Hm Hp Hc).
  case_bool_decide; [|done].
  destruct (mapping !! p) as [method|]; [|done].
  case_bool_decide; [|done].
  intros Hout Hexc.
  destruct (serve_outcome method rt) as [Hok|(e' & He & Hbase)].
  - rewrite Hok in Hout. discriminate.
  - rewrite He in Hout. injection Hout as ->. congruence.
Qed.

(** X12: For a method function that does not end the stream itself, a
    [request_handler] that returns has put exactly one trailer frame on
    the wire, and it is the last frame. *)
Theorem request_handler_one_trailer (mapping : gmap string Method) headers rt
    method :
  accepts CONTENT_TYPES mapping headers method →
  leaves_open (func method) →
  outcome (request_handler mapping headers rt) = inr () →
  trailers_sent (wire (h2 (final (request_handler mapping headers rt)))) =
    trailers_sent (wire (h2 rt)) + 1 ∧
  ∃ w code, (code = "0" ∨ code = "2") ∧
    wire (h2 (final (request_handler mapping headers rt))) =
      w ++ [Headers [("grpc-status", code)] true].
Proof.
  intros Hacc Hopen. rewrite (request_handler_accepts _ _ _ _ Hacc).
  intros Hok. split; [by apply serve_one_trailer|].
  destruct (run (func method) (stream_for method rt)) as [[e|[]] stream'] eqn:Hrun.
  - destruct (is_Exception e) eqn:Hexc.
    + rewrite (serve_raised _ _ _ _ Hrun Hexc). simpl. eauto.
    + unfold serve in Hok. by rewrite Hrun, Hexc in Hok.
  - rewrite (serve_returned _ _ _ Hrun). simpl. eauto.
Qed.

Lemma run_silent (p : coroutine message) : ∀ self,
  silent p → sent (final (run p self)) = sent self.
Proof.
  induction p as [|e|c k IH]; intros self Hp; simpl; try done.
  destruct Hp as [Hc Hk].
  pose proof (perform_sent c self) as Hsent.
  destruct (perform c self) as [r self']. simpl in Hsent.
  rewrite IH by done. rewrite Hsent.
  destruct c; try discriminate; simpl; by rewrite app_nil_r.
Qed.

(** X13: When the method function sends nothing, the response of a
    [request_handler] that returns is the trailer frame alone, status 0
    if the function returned and 2 if it raised: the initial headers
    with [:status 200] are not sent. *)
Theorem request_handler_trailers_only (mapping : gmap string Method)
    headers rt method :
  accepts CONTENT_TYPES mapping headers method →
  silent (func method) →
  outcome (request_handler mapping headers rt) = inr () →
  wire (h2 (final (request_handler mapping headers rt))) =
    wire (h2 rt) ++
    [Headers [("grpc-status",
               match outcome (run (func method) (stream_for method rt)) with
               | inr _ => "0"
               | inl _ => "2"
               end)] true].
Proof.
  intros Hacc Hsilent. rewrite (request_handler_accepts _ _ _ _ Hacc).
  pose proof (run_silent (func method) (stream_for method rt) Hsilent) as Hw.
  destruct (run (func method) (stream_for method rt)) as [[e|[]] stream'] eqn:Hrun;
    simpl in Hw.
  - destruct (is_Exception e) eqn:Hexc.
    + intros _. rewrite (serve_raised _ _ _ _ Hrun Hexc).
      unfold sent in Hw. simpl in *. by rewrite Hw.
    + unfold serve. by rewrite Hrun, Hexc.
  - intros _. rewrite (serve_returned _ _ _ Hrun).
    unfold sent in Hw. simpl in *. by rewrite Hw.
Qed.

(** ** Handler *)

(** X16: [cancel] of a stream that is not in the task table raises [KeyError]
    and changes nothing; [cancel] of a tracked stream removes that entry
    and no other, calls [cancel()] on its task and on no other, and adds
    the task to the cancelled set. *)
Theorem Handler_cancel_effect (self : Handler) (l : Loop) (stream : positive) :
  (tasks self !! stream = None →
     Handler_cancel stream (self, l) = (inl (KeyError "stream"), (self, l))) ∧
  (∀ task, tasks self !! stream = Some task →
     let r := Handler_cancel stream (self, l) in
     outcome r = inr () ∧
     tasks (final r).1 !! stream = None ∧
     (∀ other, other ≠ stream →
        tasks (final r).1 !! other = tasks self !! other) ∧
     _cancelled (final r).1 = {[task]} ∪ _cancelled self ∧
     cancel_requested (final r).2 = {[task]} ∪ cancel_requested l ∧
     scheduled (final r).2 = scheduled l).
Proof.
  split.
  - intros Hnone. unfold Handler_cancel. by rewrite Hnone.
  - intros task Htask. unfold Handler_cancel, outcome, final.
    rewrite Htask. simpl. split; [done|].
    split; [apply lookup_delete_eq|].
    split; [|done]. intros other Hne. by apply lookup_delete_ne.
Qed.

(** X17: A stream accepted and then cancelled leaves the task table as it was
    without that stream; its task is scheduled on the loop, cancelled, and
    in the cancelled set.  A second [cancel] of the stream raises
    [KeyError]. *)
Theorem Handler_accept_cancel (self : Handler) (l : Loop) (stream : positive)
    (headers : header_list) :
  let r := (Handler_accept stream headers;; Handler_cancel stream) (self, l) in
  outcome r = inr () ∧
  tasks (final r).1 = delete stream (tasks self) ∧
  _cancelled (final r).1 = {[next_id l]} ∪ _cancelled self ∧
  cancel_requested (final r).2 = {[next_id l]} ∪ cancel_requested l ∧
  scheduled (final r).2 !! next_id l =
    Some (mkRequest (mapping self) stream headers) ∧
  outcome (Handler_cancel stream (final r)) = inl (KeyError "stream").
Proof.
  unfold Handler_accept, Handler_cancel, mbind, M_bind, outcome, final.
  simpl. rewrite lookup_insert_eq. simpl.
  rewrite delete_insert_eq, lookup_delete_eq, lookup_insert_eq.
  by repeat split.
Qed.

(** X18: A second [close] changes neither the handler nor the set of tasks
    asked to cancel. *)
Theorem Handler_close_idempotent (self : Handler) (l : Loop) :
  let once := final (Handler_close (self, l)) in
  let twice := final (Handler_close once) in
  twice.1 = once.1 ∧ cancel_requested twice.2 = cancel_requested once.2.
Proof.
  unfold Handler_close, final. simpl. rewrite !cancel_each. split.
  - f_equal. set (ts := list_to_set (values (tasks self)) : gset positive).
    by rewrite <- (assoc_L (∪)), (idemp_L (∪) ts).
  - set (ts := list_to_set (values (tasks self)) : gset positive).
    by rewrite (assoc_L (∪)), (idemp_L (∪) ts).
Qed.

(** X19: [close] followed by [wait_closed] returns normally, leaves the task
    table as it was, and has cancelled and then awaited every task of the
    table, together with the tasks cancelled before. *)
Theorem Handler_close_wait_closed (self : Handler) (l : Loop) :
  let r := (Handler_close;; Handler_wait_closed) (self, l) in
  outcome r = inr () ∧
  (final r).1 = closed self ∧
  joined (final r).2 = _cancelled (closed self) ∪ joined l ∧
  (∀ stream task, tasks self !! stream = Some task →
     task ∈ cancel_requested (final r).2 ∧ task ∈ joined (final r).2) ∧
  (∀ task, task ∈ _cancelled self → task ∈ joined (final r).2).
Proof.
  unfold Handler_close, Handler_wait_closed, mbind, M_bind, outcome, final.
  simpl. fold (closed self).
  assert (Hin : ∀ stream task, tasks self !! stream = Some task →
                  task ∈ _cancelled (closed self)).
  { intros stream task Htask. simpl. apply elem_of_union. right.
    rewrite elem_of_list_to_set, elem_of_values. eauto. }
  destruct (cancel_each_frame (values (tasks self)) l) as (_ & Hj & _).
  simpl in Hj.
  case_bool_decide as Hempty; simpl; rewrite Hj.
  - split; [done|]. split; [done|]. split; [done|]. split.
    + intros stream task Htask. rewrite cancel_each. split.
      * apply elem_of_union. left.
        rewrite elem_of_list_to_set, elem_of_values. eauto.
      * apply elem_of_union. left. eauto.
    + intros task Htask. apply elem_of_union. left. simpl.
      apply elem_of_union. by left.
  - split; [done|]. split; [done|]. simpl. rewrite Hempty.
    split; [by rewrite (left_id_L ∅ (∪))|]. split.
    + intros stream task Htask. specialize (Hin _ _ Htask). simpl in Hin.
      rewrite Hempty in Hin. by apply not_elem_of_empty in Hin.
    + intros task Htask.
      assert (task ∈ _cancelled self ∪
                (list_to_set (values (tasks self)) : gset positive)) as Hc.
      { apply elem_of_union. by left. }
      rewrite Hempty in Hc. by apply not_elem_of_empty in Hc.
Qed.

(** ** Server *)

Lemma fold_update_Some (path : string) (x : Method)
    (groups : list (gmap string Method)) : ∀ mapping : gmap string Method,
  fold_left update groups mapping !! path = Some x →
  mapping !! path = Some x ∨ ∃ g, g ∈ groups ∧ g !! path = Some x.
Proof.
  induction groups as [|g groups IH]; intros mapping H; simpl in H; [by left|].
  destruct (IH _ H) as [Hm|(g' & Hin & Hg')].
  - unfold update in Hm. apply lookup_union_Some_raw in Hm as [Hg|[_ Hm]].
    + right. exists g. split; [apply list_elem_of_here|done].
    + by left.
  - right. exists g'. split; [by apply list_elem_of_further|done].
Qed.

Lemma fold_update_is_Some (path : string)
    (groups : list (gmap string Method)) : ∀ mapping : gmap string Method,
  is_Some (mapping !! path) ∨ (∃ g, g ∈ groups ∧ is_Some (g !! path)) →
  is_Some (fold_left update groups mapping !! path).
Proof.
  induction groups as [|g groups IH]; intros mapping H; simpl.
  - destruct H as [H|(g & Hin & _)]; [done|]. by apply elem_of_nil in Hin.
  - apply IH. unfold update. rewrite lookup_union_is_Some.
    destruct H as [H|(g' & Hin & Hg')]; [by left; right|].
    apply elem_of_cons in Hin as [->|Hin]; [by left; left|].
    right. eauto.
Qed.

(** X20: The merged mapping of a new server has a path exactly when some
    handler group has it, and every descriptor in it is the one some
    group gave for that path; the new server is not started and tracks no
    handler. *)
Theorem Server_init_lookup (groups : list (gmap string Method)) (path : string) :
  (is_Some (_mapping (Server_init groups) !! path) ↔
     ∃ g, g ∈ groups ∧ is_Some (g !! path)) ∧
  (∀ method, _mapping (Server_init groups) !! path = Some method →
     ∃ g, g ∈ groups ∧ g !! path = Some method) ∧
  _tcp_server (Server_init groups) = None ∧
  _handlers (Server_init groups) = ∅.
Proof.
  unfold Server_init. simpl. split; [split|split; [|done]].
  - intros [x Hx]. destruct (fold_update_Some _ _ _ _ Hx) as [H|(g & ? & ?)].
    + by rewrite lookup_empty in H.
    + exists g. eauto.
  - intros H. apply fold_update_is_Some. by right.
  - intros method Hx.
    destruct (fold_update_Some _ _ _ _ Hx) as [H|?]; [|done].
    by rewrite lookup_empty in H.
Qed.

(** X21: [_protocol_factory] gives the connection a new handler with an empty
    task table and the server's mapping, adds it to the server's set and
    leaves the handlers already there, the listening state and the loop
    as they were. *)
Theorem Server_protocol_factory_adds (self : Server) (w : World) :
  let r := Server_protocol_factory (self, w) in
  ∃ ref, outcome r = inr ref ∧
    heap w !! ref = None ∧
    heap (final r).2 !! ref = Some (Handler_init (_mapping self)) ∧
    (∀ other, other ≠ ref → heap (final r).2 !! other = heap w !! other) ∧
    _handlers (final r).1 = {[ref]} ∪ _handlers self ∧
    _tcp_server (final r).1 = _tcp_server self ∧
    _mapping (final r).1 = _mapping self ∧
    loop (final r).2 = loop w.
Proof.
  simpl. exists (fresh (dom (heap w))). unfold outcome, final. simpl.
  split; [done|]. split.
  { apply not_elem_of_dom. apply is_fresh. }
  split; [apply lookup_insert_eq|].
  split; [|done]. intros other Hne. by apply lookup_insert_ne.
Qed.

(** X22: Whenever [start] raises, the server object and the handlers are as
    before the call: the listening server is assigned only after
    [create_server] has returned. *)
Theorem Server_start_failure_atomic (self : Server) (w : World)
    (addr : string) (e : exn) :
  outcome (Server_start addr (self, w)) = inl e →
  (final (Server_start addr (self, w))).1 = self ∧
  heap (final (Server_start addr (self, w))).2 = heap w.
Proof.
  unfold Server_start, outcome, final.
  destruct (_tcp_server self); [done|].
  by destruct (create_server addr (loop w)) as [[e'|srv] l'].
Qed.

Lemma close_handler_heap (w : World) (ref r : positive) :
  heap (close_handler w ref) !! r =
    if decide (r = ref) then closed <$> heap w !! ref else heap w !! r.
Proof.
  unfold close_handler. destruct (heap w !! ref) as [h|] eqn:Hh; simpl.
  - case_decide as Hr; [subst; by rewrite lookup_insert_eq|].
    by rewrite lookup_insert_ne.
  - case_decide as Hr; [by subst|done].
Qed.

Lemma close_handler_cancel (w : World) (ref : positive) :
  cancel_requested (loop (close_handler w ref)) =
    from_option (λ h, list_to_set (values (tasks h))) ∅ (heap w !! ref)
    ∪ cancel_requested (loop w).
Proof.
  unfold close_handler. destruct (heap w !! ref) as [h|]; simpl.
  - apply cancel_each.
  - by rewrite (left_id_L ∅ (∪)).
Qed.

Lemma close_handler_listeners (w : World) (ref : positive) :
  listeners (loop (close_handler w ref)) = listeners (loop w).
Proof.
  unfold close_handler. destruct (heap w !! ref) as [h|]; simpl; [|done].
  by destruct (cancel_each_frame (values (tasks h)) (loop w)) as (_ & _ & _ & ?).
Qed.

Lemma close_all_untouched (refs : list positive) : ∀ (w : World) r,
  r ∉ refs →
  heap (fold_left close_handler refs w) !! r = heap w !! r.
Proof.
  induction refs as [|a refs IH]; intros w r Hr; simpl; [done|].
  apply not_elem_of_cons in Hr as [Hne Hr].
  rewrite IH by done. rewrite close_handler_heap. by case_decide.
Qed.

Lemma close_all_mono (refs : list positive) : ∀ w : World,
  cancel_requested (loop w) ⊆
  cancel_requested (loop (fold_left close_handler refs w)).
Proof.
  induction refs as [|a refs IH]; intros w; simpl; [done|].
  etrans; [|apply IH]. rewrite close_handler_cancel.
  apply union_subseteq_r.
Qed.

Lemma close_all_listeners (refs : list positive) : ∀ w : World,
  listeners (loop (fold_left close_handler refs w)) = listeners (loop w).
Proof.
  induction refs as [|a refs IH]; intros w; simpl; [done|].
  by rewrite IH, close_handler_listeners.
Qed.

Lemma close_all_member (refs : list positive) :
  NoDup refs → ∀ (w : World) r h,
  r ∈ refs → heap w !! r = Some h →
  heap (fold_left close_handler refs w) !! r = Some (closed h) ∧
  list_to_set (values (tasks h)) ⊆
    cancel_requested (loop (fold_left close_handler refs w)).
Proof.
  induction 1 as [|a refs Ha Hnd IH]; intros w r h Hr Hh; simpl.
  { by apply elem_of_nil in Hr. }
  apply elem_of_cons in Hr as [->|Hr].
  - split.
    + rewrite close_all_untouched by done.
      rewrite close_handler_heap. case_decide; [|done]. by rewrite Hh.
    + etrans; [|apply close_all_mono].
      rewrite close_handler_cancel, Hh. simpl. apply union_subseteq_l.
  - apply IH; [done|]. rewrite close_handler_heap.
    case_decide as Heq; [|done]. subst. done.
Qed.

(** X23: [close] on a started server returns normally, stops the listening
    server and closes every handler of its set: each handler keeps its
    task table, and every task of every table has been asked to cancel and
    is in its handler's cancelled set.  The server object itself does not
    change. *)
Theorem Server_close_cascades (self : Server) (w : World) (srv : positive) :
  _tcp_server self = Some srv →
  let r := Server_close (self, w) in
  outcome r = inr () ∧
  (final r).1 = self ∧
  (∀ addr up, listeners (loop w) !! srv = Some (addr, up) →
     listeners (loop (final r).2) !! srv = Some (addr, false)) ∧
  (∀ ref h, ref ∈ _handlers self → heap w !! ref = Some h →
     heap (final r).2 !! ref = Some (closed h) ∧
     ∀ stream task, tasks h !! stream = Some task →
       task ∈ cancel_requested (loop (final r).2) ∧
       task ∈ _cancelled (closed h)).
Proof.
  intros Hsrv. unfold Server_close, outcome, final. rewrite Hsrv. simpl.
  split; [done|]. split; [done|]. split.
  - intros addr up Hl. rewrite close_all_listeners. simpl.
    by rewrite lookup_alter_eq, Hl.
  - intros ref h Href Hh.
    destruct (close_all_member (elements (_handlers self))
                (NoDup_elements _)
                {| loop := tcp_close srv (loop w); heap := heap w |} ref h)
      as [Hheap Hsub]; [by apply elem_of_elements|done|].
    split; [done|]. intros stream task Htask.
    assert (task ∈ (list_to_set (values (tasks h)) : gset positive)) as Hin.
    { rewrite elem_of_list_to_set, elem_of_values. eauto. }
    split; [by apply Hsub|]. simpl. apply elem_of_union. by right.
Qed.

(** X25: After a successful [close] the server is still marked started: a
    further [start] raises the invalid-state error, and a further [close]
    returns normally. *)
Theorem Server_close_no_restart (st st' : Server * World) :
  Server_close st = (inr (), st') →
  st'.1 = st.1 ∧
  (∀ addr, Server_start addr st' =
             (inl (RuntimeError "Server is already started"), st')) ∧
  outcome (Server_close st') = inr ().
Proof.
  destruct st as [self w]. unfold Server_close.
  destruct (_tcp_server self) as [srv|] eqn:Hsrv; [|discriminate].
  intros [= <-]. simpl. split; [done|].
  unfold Server_start. rewrite Hsrv. by split.
Qed.

Lemma wait_closed_handler_heap (w : World) (ref : positive) :
  heap (wait_closed_handler w ref) = heap w.
Proof.
  unfold wait_closed_handler, Handler_wait_closed.
  destruct (heap w !! ref) as [h|] eqn:Hh; [|done].
  case_bool_decide; simpl; by apply insert_id.
Qed.

Lemma wait_closed_handler_joined (w : World) (ref : positive) :
  joined (loop (wait_closed_handler w ref)) =
    from_option _cancelled ∅ (heap w !! ref) ∪ joined (loop w).
Proof.
  unfold wait_closed_handler, Handler_wait_closed.
  destruct (heap w !! ref) as [h|] eqn:Hh; simpl.
  - case_bool_decide as Hempty; simpl; [done|].
    by rewrite Hempty, (left_id_L ∅ (∪)).
  - by rewrite (left_id_L ∅ (∪)).
Qed.

Lemma wait_closed_handler_cancel (w : World) (ref : positive) :
  cancel_requested (loop (wait_closed_handler w ref)) =
    cancel_requested (loop w).
Proof.
  unfold wait_closed_handler, Handler_wait_closed.
  destruct (heap w !! ref) as [h|]; [|done]. by case_bool_decide.
Qed.

Lemma wait_all_frame (refs : list positive) : ∀ w : World,
  heap (fold_left wait_closed_handler refs w) = heap w ∧
  cancel_requested (loop (fold_left wait_closed_handler refs w)) =
    cancel_requested (loop w) ∧
  joined (loop w) ⊆ joined (loop (fold_left wait_closed_handler refs w)).
Proof.
  induction refs as [|a refs IH]; intros w; simpl; [done|].
  destruct (IH (wait_closed_handler w a)) as (Hh & Hc & Hj).
  rewrite Hh, Hc, wait_closed_handler_heap, wait_closed_handler_cancel.
  split; [done|]. split; [done|]. etrans; [|exact Hj].
  rewrite wait_closed_handler_joined. apply union_subseteq_r.
Qed.

Lemma wait_all_member (refs : list positive) : ∀ (w : World) r h,
  r ∈ refs → heap w !! r = Some h →
  _cancelled h ⊆ joined (loop (fold_left wait_closed_handler refs w)).
Proof.
  induction refs as [|a refs IH]; intros w r h Hr Hh; simpl.
  { by apply elem_of_nil in Hr. }
  apply elem_of_cons in Hr as [->|Hr].
  - destruct (wait_all_frame refs (wait_closed_handler w a)) as (_ & _ & Hj).
    etrans; [|exact Hj]. rewrite wait_closed_handler_joined, Hh. simpl.
    apply union_subseteq_l.
  - apply (IH _ r); [done|]. by rewrite wait_closed_handler_heap.
Qed.

(** X24: [close] followed by [wait_closed] on a started server returns normally
    and has cancelled and awaited every task in the table of every handler
    of the server's set. *)
Theorem Server_close_wait_closed (self : Server) (w : World) (srv : positive) :
  _tcp_server self = Some srv →
  let r := (Server_close;; Server_wait_closed) (self, w) in
  outcome r = inr () ∧
  (final r).1 = self ∧
  (∀ ref h stream task,
     ref ∈ _handlers self → heap w !! ref = Some h →
     tasks h !! stream = Some task →
     task ∈ cancel_requested (loop (final r).2) ∧
     task ∈ joined (loop (final r).2)).
Proof.
  intros Hsrv. unfold mbind, M_bind, Server_close, Server_wait_closed.
  rewrite Hsrv. simpl. rewrite Hsrv.
  set (w2 := fold_left close_handler (elements (_handlers self))
               {| loop := tcp_close srv (loop w); heap := heap w |}).
  set (w3 := {| loop := tcp_wait_closed srv (loop w2); heap := heap w2 |}).
  case_bool_decide as Hsome; unfold outcome, final; simpl.
  - split; [done|]. split; [done|]. intros ref h stream task Href Hh Htask.
    destruct (close_all_member (elements (_handlers self))
                (NoDup_elements _)
                {| loop := tcp_close srv (loop w); heap := heap w |} ref h)
      as [Hheap Hsub]; [by apply elem_of_elements|done|].
    fold w2 in Hheap, Hsub.
    assert (task ∈ (list_to_set (values (tasks h)) : gset positive)) as Hin.
    { rewrite elem_of_list_to_set, elem_of_values. eauto. }
    destruct (wait_all_frame (elements (_handlers self)) w3) as (_ & -> & _).
    split; [by apply Hsub|].
    apply (wait_all_member (elements (_handlers self)) w3 ref (closed h));
      [by apply elem_of_elements|done|].
    simpl. apply elem_of_union. by right.
  - split; [done|]. split; [done|]. intros ref h stream task Href.
    rewrite Hsome in Href. by apply not_elem_of_empty in Href.
Qed.

(** ** The ended flag in use *)

(** X15: On the stream [request_handler] builds, after any run of a method
    function, [maybe_end] does what [end] does: it returns normally and
    sends the trailers given, or the stored ones; its guard on the ended
    flag never holds it back. *)
Theorem maybe_end_is_end (method : Method) (rt : Runtime)
    (p : coroutine message) t :
  let stream := final (run p (stream_for method rt)) in
  Stream_maybe_end t stream = Stream_end t stream ∧
  outcome (Stream_maybe_end t stream) = inr () ∧
  sent (final (Stream_maybe_end t stream)) =
    sent stream ++ [Headers (default [("grpc-status", "0")] t) true].
Proof.
  simpl.
  pose proof (run_settings p (stream_for method rt)) as (E & _ & T & _).
  simpl in E, T.
  rewrite (Stream_maybe_end_run _ _ E), (Stream_end_run _ _ E), T.
  by repeat split.
Qed.

(** X14: A [request_handler] that returns has put on the wire one trailer
    frame more than the method function did. *)
Theorem request_handler_trailer_count (mapping : gmap string Method)
    headers rt method :
  accepts CONTENT_TYPES mapping headers method →
  outcome (request_handler mapping headers rt) = inr () →
  trailers_sent (wire (h2 (final (request_handler mapping headers rt)))) =
    trailers_sent (sent (final (run (func method) (stream_for method rt)))) + 1.
Proof.
  intros Hacc. rewrite (request_handler_accepts _ _ _ _ Hacc).
  apply serve_adds_trailer.
Qed.

End Properties.

(** * The greeter service, run *)

Section GreeterRuns.

Import Greeter.

Local Abbreviation SayHello := "/helloworld.Greeter/SayHello".
Local Abbreviation Close := "/helloworld.Greeter/Close".
Local Abbreviation Fail := "/helloworld.Greeter/Fail".
Local Abbreviation trailers status :=
  (@Headers pb_message [("grpc-status", status)] true).
Local Abbreviation headers_200 :=
  (@Headers pb_message
     [(":status", "200"); ("content-type", "application/grpc+proto")] false).

(** C1: a method function that ends the stream itself and returns gets a
    second trailer frame from [request_handler]: two are emitted where
    the specification promises one. *)
Theorem request_handler_ends_twice :
  outcome (handle (request_headers Close)) = inr () ∧
  wire (h2 (final (handle (request_headers Close)))) =
    [trailers "0"; trailers "0"] ∧
  trailers_sent (wire (h2 (final (handle (request_headers Close))))) = 2 ∧
  wire (h2 (final (handle (request_headers SayHello)))) =
    [headers_200; Data hello; trailers "0"; trailers "0"].
Proof. by vm_compute. Qed.

(** C2: [maybe_end] after a successful [end] finds the flag still down
    and sends the trailers a second time. *)
Theorem maybe_end_after_end_sends_again :
  outcome (Stream_end None fresh_stream) = inr () ∧
  _ended (final (Stream_end None fresh_stream)) = false ∧
  outcome (Stream_maybe_end None (final (Stream_end None fresh_stream))) = inr () ∧
  sent (final (Stream_maybe_end None (final (Stream_end None fresh_stream)))) =
    sent (final (Stream_end None fresh_stream)) ++ [trailers "0"].
Proof. by vm_compute. Qed.

(** C3: a second [end] after a successful first one passes its assertion
    and returns normally, with a second trailer frame on the wire. *)
Theorem end_twice_is_accepted :
  outcome (Stream_end None fresh_stream) = inr () ∧
  outcome (Stream_end None (final (Stream_end None fresh_stream))) = inr () ∧
  sent (final (Stream_end None (final (Stream_end None fresh_stream)))) =
    [trailers "0"; trailers "0"].
Proof. by vm_compute. Qed.

Lemma request_handler_failure_witness :
  outcome (handle (request_headers Fail)) = inr () ∧
  log (final (handle (request_headers Fail))) =
    log boot ++ [("Server error", ApplicationError "ValueError")] ∧
  h2 (final (handle (request_headers Fail))) =
    _stream (final (Stream_maybe_end (Some failure_trailers)
      (final (run isinstance sends_then_raises
                (stream_for CONTENT_TYPE (method_of sends_then_raises) boot))))) ∧
  wire (h2 (final (handle (request_headers Fail)))) =
    sent (final (run isinstance sends_then_raises
                   (stream_for CONTENT_TYPE (method_of sends_then_raises) boot)))
    ++ [trailers "2"].
Proof.
  apply (request_handler_failure isinstance CONTENT_TYPE CONTENT_TYPES routes
           (request_headers Fail) boot Fail "application/grpc+proto"
           (method_of sends_then_raises) (ApplicationError "ValueError"));
    by vm_compute.
Defined.

Lemma request_handler_validation_witness :
  (assertion_failure (handle (request_headers SayHello)) ↔
     "POST" ≠ "POST" ∨ routes !! SayHello = None ∨
     "application/grpc+proto" ∉ CONTENT_TYPES) ∧
  (∀ method, "POST" = "POST" →
     routes !! SayHello = Some method →
     "application/grpc+proto" ∈ CONTENT_TYPES →
     handle (request_headers SayHello) =
       serve isinstance CONTENT_TYPE method boot).
Proof.
  apply (request_handler_validation isinstance CONTENT_TYPE CONTENT_TYPES
           routes (request_headers SayHello) boot);
    by vm_compute.
Defined.

(** Against C6 as worded: a request for a registered method that carries
    no content type stops on the [KeyError] of the header lookup, not on
    an assertion, although its content type is none of the accepted
    ones. *)
Lemma missing_content_type_is_KeyError :
  outcome (handle (bare_headers SayHello)) = inl (KeyError "content-type") ∧
  ¬ (assertion_failure (handle (bare_headers SayHello)) ↔
     spec_rejects CONTENT_TYPES routes (bare_headers SayHello)).
Proof.
  split; [by vm_compute|]. intros [_ Hfail].
  destruct Hfail as [arg Harg].
  - right. right. intros (c & Hc & _). vm_compute in Hc. discriminate.
  - vm_compute in Harg. discriminate.
Qed.

Lemma send_wrong_type_not_atomic_witness :
  outcome (Stream_send isinstance stray false fresh_stream) =
    inl (AssertionError None) ∧
  sent (final (Stream_send isinstance stray false fresh_stream)) =
    sent fresh_stream ++ [@Headers pb_message (_headers fresh_stream) false] ∧
  _headers_sent (final (Stream_send isinstance stray false fresh_stream)) = true.
Proof.
  apply (send_wrong_type_not_atomic isinstance fresh_stream stray false);
    reflexivity.
Defined.

Lemma send_emits_headers_once_witness :
  ∃ first rest,
    sent (final (Stream_send isinstance hello false fresh_stream)) =
      sent fresh_stream ++ Headers (_headers fresh_stream) false :: first ∧
    sent (send_all isinstance [(hello, false); (stray, false); (hello, true)]
            fresh_stream) =
      sent fresh_stream ++ Headers (_headers fresh_stream) false :: first ++ rest ∧
    Forall (λ f, is_initial f = false) (first ++ rest) ∧
    initials_sent (sent (send_all isinstance
                           [(hello, false); (stray, false); (hello, true)]
                           fresh_stream)) =
      initials_sent (sent fresh_stream) + 1.
Proof.
  apply (send_emits_headers_once isinstance fresh_stream hello false
           [(stray, false); (hello, true)]).
  reflexivity.
Defined.

Lemma Server_init_last_wins_witness :
  _mapping (Server_init ([group_a] ++ group_b :: [routes ∖ group_a]))
    !! SayHello = Some (method_of sends_and_ends).
Proof.
  apply (Server_init_last_wins [group_a] [routes ∖ group_a] group_b SayHello
           (method_of sends_and_ends)).
  - by vm_compute.
  - repeat constructor.
Defined.

(** Scenario A and B of the specification, and the frames of a sequence
    of sends. *)
Example scenario_B :
  wire (h2 (final (handle (request_headers Fail)))) =
    [headers_200; Data hello; trailers "2"].
Proof. by vm_compute. Qed.

(** The three rejections: an unmapped path, a method other than POST, a
    content type that is not accepted. *)
Example unmapped_path :
  handle (request_headers "/helloworld.Greeter/Nope") =
    (inl (AssertionError (Some "/helloworld.Greeter/Nope")), boot).
Proof. by vm_compute. Qed.

Example wrong_method :
  handle [(":method", "GET"); (":path", SayHello);
          ("content-type", "application/grpc+proto")] =
    (inl (AssertionError (Some "GET")), boot).
Proof. by vm_compute. Qed.

Example wrong_content_type :
  handle [(":method", "POST"); (":path", SayHello);
          ("content-type", "text/html")] =
    (inl (AssertionError (Some "text/html")), boot).
Proof. by vm_compute. Qed.

(** The server's life: close before start, start, start again, close. *)
Example close_before_start :
  outcome (Server_close (greeter_server, cold_world)) =
    inl (RuntimeError "Server is not started").
Proof. by vm_compute. Qed.

Example start_twice :
  outcome ((Server_start "127.0.0.1:50051";; Server_start "127.0.0.1:50052")
             (greeter_server, cold_world)) =
    inl (RuntimeError "Server is already started").
Proof. by vm_compute. Qed.

Example start_then_close :
  outcome ((Server_start "127.0.0.1:50051";; Server_protocol_factory;;
            Server_close;; Server_wait_closed)
             (greeter_server, cold_world)) = inr ().
Proof. by vm_compute. Qed.

(** A handler with two accepted streams, closed. *)
Example close_busy_handler :
  let r := (Handler_close (final busy_handler)) in
  tasks (final r).1 = {[ 1%positive := 1%positive; 3%positive := 2%positive ]} ∧
  _cancelled (final r).1 = {[ 1%positive; 2%positive ]} ∧
  cancel_requested (final r).2 = {[ 1%positive; 2%positive ]}.
Proof. by vm_compute. Qed.

Example three_sends :
  sent (send_all isinstance [(hello, false); (stray, false); (hello, true)]
          fresh_stream) =
    [headers_200; Data hello; Data hello; trailers "0"].
Proof. by vm_compute. Qed.

(** ** Instances of the further properties *)

Local Abbreviation Stop := "/helloworld.Greeter/Stop".
Local Abbreviation Listen := "/helloworld.Greeter/Listen".
Local Abbreviation Reply := "/helloworld.Greeter/Reply".
Local Abbreviation handle_more headers :=
  (request_handler isinstance CONTENT_TYPE CONTENT_TYPES more_routes
     headers boot).

Lemma run_headers_once_witness :
  ∃ quiet rest,
    sent (final (run isinstance sends_and_ends fresh_stream)) =
      sent fresh_stream ++ quiet ++ rest ∧
    Forall (λ f, is_quiet f = true) quiet ∧
    ((rest = [] ∧
      _headers_sent (final (run isinstance sends_and_ends fresh_stream)) = false) ∨
     (∃ later, rest = Headers (_headers fresh_stream) false :: later ∧
               Forall (λ f, is_initial f = false) later ∧
               _headers_sent (final (run isinstance sends_and_ends fresh_stream))
                 = true)) ∧
    initials_sent (sent (final (run isinstance sends_and_ends fresh_stream))) =
      initials_sent (sent fresh_stream) +
      (if _headers_sent (final (run isinstance sends_and_ends fresh_stream))
       then 1 else 0).
Proof.
  apply (run_headers_once isinstance sends_and_ends fresh_stream).
  reflexivity.
Defined.

Lemma request_handler_success_witness :
  outcome (handle_more (request_headers Reply)) = inr () ∧
  log (final (handle_more (request_headers Reply))) = log boot ∧
  inbox (h2 (final (handle_more (request_headers Reply)))) =
    inbox (_stream (final (run isinstance replies
                             (stream_for CONTENT_TYPE (method_of replies) boot)))) ∧
  wire (h2 (final (handle_more (request_headers Reply)))) =
    sent (final (run isinstance replies
                   (stream_for CONTENT_TYPE (method_of replies) boot)))
    ++ [trailers "0"].
Proof.
  apply (request_handler_success isinstance CONTENT_TYPE CONTENT_TYPES
           more_routes (request_headers Reply) boot (method_of replies)).
  - split; [by vm_compute|]. split.
    + exists Reply. by vm_compute.
    + exists "application/grpc+proto". by vm_compute.
  - by vm_compute.
Defined.

Lemma request_handler_base_exception_witness :
  handle_more (request_headers Stop) =
    (inl (BaseException "KeyboardInterrupt"),
     {| h2 := _stream (final (run isinstance interrupted
                                (stream_for CONTENT_TYPE (method_of interrupted) boot)));
        log := log boot |}).
Proof.
  apply (request_handler_base_exception isinstance CONTENT_TYPE CONTENT_TYPES
           more_routes (request_headers Stop) boot (method_of interrupted)).
  - split; [by vm_compute|]. split.
    + exists Stop. by vm_compute.
    + exists "application/grpc+proto". by vm_compute.
  - by vm_compute.
  - reflexivity.
Defined.

(** Against C4 as worded: the method function of the [Stop] route raises
    [KeyboardInterrupt], which does not derive from [Exception]; the
    [except Exception] clause lets it through, so [request_handler]
    raises it in turn, logs nothing and sends no trailer frame. *)
Lemma interrupt_escapes_request_handler :
  outcome (run isinstance (func (method_of interrupted))
             (stream_for CONTENT_TYPE (method_of interrupted) boot)) =
    inl (BaseException "KeyboardInterrupt") ∧
  outcome (handle_more (request_headers Stop)) =
    inl (BaseException "KeyboardInterrupt") ∧
  log (final (handle_more (request_headers Stop))) = [] ∧
  trailers_sent (wire (h2 (final (handle_more (request_headers Stop))))) = 0 ∧
  ¬ (outcome (handle_more (request_headers Stop)) = inr () ∧
     log (final (handle_more (request_headers Stop))) =
       log boot ++ [("Server error", BaseException "KeyboardInterrupt")] ∧
     wire (h2 (final (handle_more (request_headers Stop)))) =
       sent (final (run isinstance (func (method_of interrupted))
                      (stream_for CONTENT_TYPE (method_of interrupted) boot)))
       ++ [trailers "2"]).
Proof.
  split; [by vm_compute|]. split; [by vm_compute|].
  split; [by vm_compute|]. split; [by vm_compute|].
  intros [Hout _]. vm_compute in Hout. discriminate.
Qed.

Lemma request_handler_error_leaves_runtime_witness :
  final (handle (request_headers "/helloworld.Greeter/Nope")) = boot.
Proof.
  apply (request_handler_error_leaves_runtime isinstance CONTENT_TYPE
           CONTENT_TYPES routes (request_headers "/helloworld.Greeter/Nope")
           boot (AssertionError (Some "/helloworld.Greeter/Nope")));
    by vm_compute.
Defined.

Lemma request_handler_one_trailer_witness :
  trailers_sent (wire (h2 (final (handle (request_headers Fail))))) =
    trailers_sent (wire (h2 boot)) + 1 ∧
  ∃ w code, (code = "0" ∨ code = "2") ∧
    wire (h2 (final (handle (request_headers Fail)))) =
      w ++ [trailers code].
Proof.
  apply (request_handler_one_trailer isinstance CONTENT_TYPE CONTENT_TYPES
           routes (request_headers Fail) boot (method_of sends_then_raises)).
  - split; [by vm_compute|]. split.
    + exists Fail. by vm_compute.
    + exists "application/grpc+proto". by vm_compute.
  - simpl. split; [done|]. by intros [e|v].
  - by vm_compute.
Defined.

Lemma request_handler_trailers_only_witness :
  wire (h2 (final (handle_more (request_headers Listen)))) =
    wire (h2 boot) ++
    [trailers (match outcome (run isinstance (func (method_of listens))
                                (stream_for CONTENT_TYPE (method_of listens) boot))
               with inr _ => "0" | inl _ => "2" end)].
Proof.
  apply (request_handler_trailers_only isinstance CONTENT_TYPE CONTENT_TYPES
           more_routes (request_headers Listen) boot (method_of listens)).
  - split; [by vm_compute|]. split.
    + exists Listen. by vm_compute.
    + exists "application/grpc+proto". by vm_compute.
  - simpl. split; [done|]. by intros [e|v].
  - by vm_compute.
Defined.

Lemma Server_start_failure_atomic_witness :
  (final (Server_start "127.0.0.1:50051" (busy_server, busy_world))).1 =
    busy_server ∧
  heap (final (Server_start "127.0.0.1:50051" (busy_server, busy_world))).2 =
    heap busy_world.
Proof.
  apply (Server_start_failure_atomic busy_server busy_world "127.0.0.1:50051"
           (RuntimeError "Server is already started")).
  reflexivity.
Defined.

Lemma Server_close_cascades_witness :
  let r := Server_close (busy_server, busy_world) in
  outcome r = inr () ∧
  (final r).1 = busy_server ∧
  (∀ addr up, listeners (loop busy_world) !! 9%positive = Some (addr, up) →
     listeners (loop (final r).2) !! 9%positive = Some (addr, false)) ∧
  (∀ ref h, ref ∈ _handlers busy_server → heap busy_world !! ref = Some h →
     heap (final r).2 !! ref = Some (closed h) ∧
     ∀ stream task, tasks h !! stream = Some task →
       task ∈ cancel_requested (loop (final r).2) ∧
       task ∈ _cancelled (closed h)).
Proof.
  apply (Server_close_cascades busy_server busy_world 9%positive).
  reflexivity.
Defined.

Lemma Server_close_wait_closed_witness :
  let r := (Server_close;; Server_wait_closed) (busy_server, busy_world) in
  outcome r = inr () ∧
  (final r).1 = busy_server ∧
  (∀ ref h stream task,
     ref ∈ _handlers busy_server → heap busy_world !! ref = Some h →
     tasks h !! stream = Some task →
     task ∈ cancel_requested (loop (final r).2) ∧
     task ∈ joined (loop (final r).2)).
Proof.
  apply (Server_close_wait_closed busy_server busy_world 9%positive).
  reflexivity.
Defined.

Lemma Server_close_no_restart_witness :
  (final (Server_close (busy_server, busy_world))).1 = (busy_server, busy_world).1 ∧
  (∀ addr, Server_start addr (final (Server_close (busy_server, busy_world))) =
             (inl (RuntimeError "Server is already started"),
              final (Server_close (busy_server, busy_world)))) ∧
  outcome (Server_close (final (Server_close (busy_server, busy_world)))) = inr ().
Proof.
  apply (Server_close_no_restart (busy_server, busy_world)
           (final (Server_close (busy_server, busy_world)))).
  reflexivity.
Defined.

Lemma request_handler_trailer_count_witness :
  trailers_sent (wire (h2 (final (handle (request_headers SayHello))))) =
    trailers_sent (sent (final (run isinstance (func (method_of sends_and_ends))
                                  (stream_for CONTENT_TYPE
                                     (method_of sends_and_ends) boot)))) + 1.
Proof.
  apply (request_handler_trailer_count isinstance CONTENT_TYPE CONTENT_TYPES
           routes (request_headers SayHello) boot (method_of sends_and_ends)).
  - split; [by vm_compute|]. split.
    + exists SayHello. by vm_compute.
    + exists "application/grpc+proto". by vm_compute.
  - by vm_compute.
Defined.

(** The shutdown of the busy server, run: both tasks of its connection
    are cancelled and awaited. *)
Example busy_server_shutdown :
  let r := (Server_close;; Server_wait_closed) (busy_server, busy_world) in
  cancel_requested (loop (final r).2) = {[ 1%positive; 2%positive ]} ∧
  joined (loop (final r).2) = {[ 1%positive; 2%positive ]} ∧
  listeners_awaited (loop (final r).2) = {[ 9%positive ]}.
Proof. by vm_compute. Qed.

(** A function that is interrupted: no trailer, nothing logged. *)
Example interrupted_request :
  handle_more (request_headers Stop) =
    (inl (BaseException "KeyboardInterrupt"),
     {| h2 := {| wire := [headers_200; Data hello]; inbox := [] |};
        log := [] |}).
Proof. by vm_compute. Qed.

(** A function that only listens: the response is the trailers alone. *)
Example listening_request :
  wire (h2 (final (handle_more (request_headers Listen)))) = [trailers "0"].
Proof. by vm_compute. Qed.

End GreeterRuns.
